(** * Client Extension Extractor (cx.js): a shallow embedding and its properties

    The pipeline of [cx.js] fetches a page, discovers its style or script
    resources, lets the operator pick some, downloads and concatenates them,
    and writes a content file, a manifest and (optionally) an archive.  The
    embedding follows the functions of the current script: [slugify],
    [fetchPage], [parseResources], [promptSelection], [downloadResources],
    [generateYaml], [saveFiles], [runOnce] and the entry point.

    Conventions of the embedding.
    - A JavaScript string is a sequence of UTF-16 code units.  The model is
      [String.string], each [ascii] standing for the code unit of the same
      number, so it covers the code units U+0000 to U+00FF; on that range
      [toLowerCase], the class [\s] and [trim] are given in full.
    - The outside world (network, prompts, HTML parser, URL resolution, YAML
      encoder) and the command-line flags enter through the record [Env].
    - Effects are threaded through a small state-and-exception monad over a
      [World] holding the file tree and the trace of observable events.
    - [Promise.all] is an array of slots: every pending download writes its
      own slot when it settles, and the order of settling is an input.
    - [undefined] is [None]. *)

From Stdlib Require Import Ascii String NArith ZArith DecimalString DecimalNat.
From stdpp Require Import base tactics option list strings gmap fin_maps sorting.

Local Open Scope string_scope.
Local Open Scope list_scope.
Local Set Warnings "-register-all".

(** ** Strings *)

Module Str.

Definition code (c : ascii) : N := N_of_ascii c.

(** The class [\s] of a JavaScript regular expression (WhiteSpace and
    LineTerminator), restricted to code units below 256: TAB, LF, VT, FF, CR,
    SPACE and NO-BREAK SPACE. *)
Definition is_space (c : ascii) : bool :=
  let n := code c in
  ((9 <=? n) && (n <=? 13) || (n =? 32) || (n =? 160))%N.

(** [String.prototype.toLowerCase] on one code unit below 256: A-Z and the
    Latin-1 capitals U+00C0..U+00DE (the sign U+00D7 apart) move by 32. *)
Definition lower_char (c : ascii) : ascii :=
  let n := code c in
  if ((65 <=? n) && (n <=? 90)
      || (192 <=? n) && (n <=? 222) && negb (n =? 215))%N
  then ascii_of_N (n + 32) else c.

Fixpoint toLowerCase (s : string) : string :=
  match s with
  | EmptyString => EmptyString
  | String c s' => String (lower_char c) (toLowerCase s')
  end.

(** The class [[a-z0-9\-]]. *)
Definition slug_char (c : ascii) : bool :=
  let n := code c in
  ((97 <=? n) && (n <=? 122) || (48 <=? n) && (n <=? 57) || (n =? 45))%N.

(** [s.replace(/\s+/g, '-')]: the scanner walks left to right; a greedy
    match of [\s+] swallows a whole run and is replaced by one hyphen.
    [in_run] tells that the current position is inside a run whose hyphen
    was already written. *)
Fixpoint replace_ws_from (in_run : bool) (s : string) : string :=
  match s with
  | EmptyString => EmptyString
  | String c s' =>
      if is_space c
      then (if in_run then replace_ws_from true s'
            else String "-" (replace_ws_from true s'))
      else String c (replace_ws_from false s')
  end.

Definition replace_ws (s : string) : string := replace_ws_from false s.

(** [s.replace(/[^a-z0-9\-]/g, '')]. *)
Fixpoint strip_non_slug (s : string) : string :=
  match s with
  | EmptyString => EmptyString
  | String c s' =>
      if slug_char c then String c (strip_non_slug s') else strip_non_slug s'
  end.

Fixpoint forallb (p : ascii -> bool) (s : string) : bool :=
  match s with
  | EmptyString => true
  | String c s' => p c && forallb p s'
  end.

(** [String.prototype.trim]: drops the [\s] code units at both ends. *)
Fixpoint trimStart (s : string) : string :=
  match s with
  | EmptyString => EmptyString
  | String c s' => if is_space c then trimStart s' else s
  end.

Fixpoint trimEnd (s : string) : string :=
  match s with
  | EmptyString => EmptyString
  | String c s' =>
      match trimEnd s' with
      | EmptyString => if is_space c then EmptyString else String c EmptyString
      | t => String c t
      end
  end.

Definition trim (s : string) : string := trimEnd (trimStart s).

(** A string is truthy when it is not empty. *)
Definition truthy (s : string) : bool :=
  match s with EmptyString => false | _ => true end.

End Str.

(** ** Modes and the slug (cx.js, [MODES] and [slugify]) *)

Inductive Mode := css | js.

#[global] Instance Mode_eq_dec : EqDecision Mode.
Proof. solve_decision. Defined.

(** The mode as the string the command line carries. *)
Definition mode_str (m : Mode) : string :=
  match m with css => "css" | js => "js" end.

Definition slugify (name suffix : string) : string :=
  Str.strip_non_slug (Str.replace_ws (Str.toLowerCase name)) +:+ "-" +:+ suffix.

(** ** The slug rule as the specification words it

    The text is cut into maximal runs of whitespace and of other code units;
    every rule below says what becomes of each run. *)

Module SlugSpec.

(** A maximal run: [true] marks a whitespace run. *)
Definition run : Type := bool * string.

Fixpoint runs (s : string) : list run :=
  match s with
  | EmptyString => []
  | String c s' =>
      let b := Str.is_space c in
      match runs s' with
      | (b', r) :: rs =>
          if Bool.eqb b b' then (b, String c r) :: rs
          else (b, String c EmptyString) :: (b', r) :: rs
      | [] => [(b, String c EmptyString)]
      end
  end.

Fixpoint concat (l : list string) : string :=
  match l with
  | [] => EmptyString
  | s :: l' => s +:+ concat l'
  end.

(** "internal whitespace runs collapsed to single hyphens": a whitespace run
    is internal when text stands on both sides of it; the leading and the
    trailing run are left as they are. *)
Fixpoint collapse_inner (first : bool) (rs : list run) : list string :=
  match rs with
  | [] => []
  | (ws, r) :: rs' =>
      (if ws && negb first && negb (bool_decide (rs' = [])) then "-" else r)
        :: collapse_inner false rs'
  end.

Definition collapse_internal (s : string) : string :=
  concat (collapse_inner true (runs s)).

(** The rule of the specification, step by step. *)
Definition technicalId (visibleName : string) (m : Mode) : string :=
  Str.strip_non_slug (collapse_internal (Str.toLowerCase visibleName))
    +:+ "-" +:+ mode_str m.

(** The rule the code follows: every whitespace run becomes one hyphen,
    every other run keeps its code units of [[a-z0-9-]]. *)
Definition slug_of_run (r : run) : string :=
  if r.1 then "-" else Str.strip_non_slug r.2.

Definition technicalId_all_runs (visibleName : string) (m : Mode) : string :=
  concat (slug_of_run <$> runs (Str.toLowerCase visibleName))
    +:+ "-" +:+ mode_str m.

(** What is left of the runs once a leading whitespace run is dropped. *)
Definition after_leading_ws (rs : list run) : list run :=
  match rs with
  | (true, _) :: rs' => rs'
  | _ => rs
  end.

End SlugSpec.

(** ** Numbers as text: [i.toString()] and [parseInt(s, 10)] *)

Module Num.

Definition toString (n : nat) : string :=
  NilEmpty.string_of_uint (Nat.to_uint n).

Definition digit_of (c : ascii) : option N :=
  let n := Str.code c in
  if ((48 <=? n) && (n <=? 57))%N then Some (n - 48)%N else None.

Definition is_digit (c : ascii) : bool :=
  match digit_of c with Some _ => true | None => false end.

(** The value of the longest prefix of decimal digits; [acc] is [None] as
    long as no digit was read. *)
Fixpoint parse_digits (acc : option N) (s : string) : option N :=
  match s with
  | EmptyString => acc
  | String c s' =>
      match digit_of c with
      | Some d => parse_digits (Some (10 * default 0 acc + d)%N) s'
      | None => acc
      end
  end.

(** [parseInt(s, 10)]: leading whitespace is skipped, one sign is read, then
    the digits up to the first other code unit; [None] is [NaN]. *)
Definition parseInt (s : string) : option Z :=
  match Str.trimStart s with
  | String "-" s' => (fun n => (- Z.of_N n)%Z) <$> parse_digits None s'
  | String "+" s' => Z.of_N <$> parse_digits None s'
  | s' => Z.of_N <$> parse_digits None s'
  end.

(** [arr[x]] for a number [x]: [undefined] (here [None]) off the array. *)
Definition index {A} (arr : list A) (x : option Z) : option A :=
  match x with
  | Some z => if (0 <=? z)%Z then arr !! Z.to_nat z else None
  | None => None
  end.

End Num.

(** ** Paths ([path.join] on a POSIX system) *)

Definition Path : Type := list string.

Module PathM.

(** [s.split(sep)]. *)
Fixpoint split_on (sep : ascii) (s : string) : list string :=
  match s with
  | EmptyString => [EmptyString]
  | String c s' =>
      if Ascii.eqb c sep then EmptyString :: split_on sep s'
      else match split_on sep s' with
           | h :: t => String c h :: t
           | [] => [String c EmptyString]
           end
  end.

(** One segment appended to a normalised absolute path. *)
Definition push (p : Path) (seg : string) : Path :=
  if String.eqb seg "" || String.eqb seg "." then p
  else if String.eqb seg ".." then removelast p
  else p ++ [seg].

(** [path.join(p, rel)] for a normalised absolute [p]. *)
Definition join (p : Path) (rel : string) : Path :=
  foldl push p (split_on "/" rel).

(** [path.basename(p)]. *)
Definition basename (p : Path) : string := List.last p "".

(** A name that is one segment: no separator in it, and none of the
    segments that [path.join] resolves away. *)
Definition simple (seg : string) : bool :=
  Str.forallb (fun c => negb (Ascii.eqb c "/")) seg
  && negb (String.eqb seg "" || String.eqb seg "." || String.eqb seg "..").

End PathM.

(** ** Data *)

(** A discovered resource: [{type: 'external', label, url}] or
    [{type: 'inline', label, content}]. *)
Inductive Resource :=
| External (label url : string)
| Inline (label content : string).

#[global] Instance Resource_eq_dec : EqDecision Resource.
Proof. solve_decision. Defined.

Definition label (r : Resource) : string :=
  match r with External l _ => l | Inline l _ => l end.

(** An element handle as the markup query hands it out. *)
Record Element := {
  tagName : string;
  attribs : list (string * string);
  html : string;
}.

(** [$(el).attr(name)]: [None] is [undefined]. *)
Fixpoint attr (name : string) (l : list (string * string)) : option string :=
  match l with
  | [] => None
  | (k, v) :: l' => if String.eqb k name then Some v else attr name l'
  end.

(** An item of the checkbox prompt. *)
Record Choice := { name : string; value : string; checked : bool }.

(** A document handed to the YAML encoder.  An object is the list of its
    properties in the order JavaScript enumerates them. *)
Inductive Yaml :=
| YStr (s : string)
| YBool (b : bool)
| YSeq (items : list Yaml)
| YMap (props : list (string * Yaml)).

(** What a file holds: text, or an archive with its entries. *)
Inductive FileData :=
| Text (s : string)
| Archive (entries : list (string * FileData)).

(** What the program prints, without the colours and the pictograms. *)
Inductive Message :=
| MsgFetching (url : string) (m : Mode)
| MsgNoResources (m : Mode)
| MsgAllIncluded (m : Mode)
| MsgNoneSelected (m : Mode)
| MsgSelectedBlocks (m : Mode) (n : nat)
| MsgLoadedExternal (url : string)
| MsgFailedToLoad (url msg : string)
| MsgLoadedInline (label : string)
| MsgZipCreated (p : Path)
| MsgSavedWithoutZip (p : Path)
| MsgOverwriteNote
| MsgInvalidMode.

Inductive Channel := log | warn | error.

(** The observable events of a run, oldest first. *)
Inductive Event :=
| Console (ch : Channel) (msg : Message)
| HttpGet (url : string)
| Checkbox (message : string) (choices : list Choice)
| Input (message default : string)
| Mkdir (p : Path)
| WriteFile (p : Path) (d : FileData)
| Remove (p : Path).

Inductive Failure :=
| Error (msg : string)
| TypeError (msg : string)
| PromptAborted
| ProcessExit (code : nat)
| Unsettled.

Record World := {
  files : gmap Path FileData;
  trace : list Event;
}.

(** The collaborators and the command-line flags of one invocation. *)
Record Env := {
  (** [__dirname], normalised. *)
  dirname : Path;
  (** [axios.get(url)]: the body, or the message of the error it rejects
      with (network failure or a status outside 2xx). *)
  axios_get : string -> string + string;
  (** [cheerio.load(html)(selector)]: the matching elements in document
      order. *)
  cheerio_select : string -> string -> list Element;
  (** [new URL(ref, base).href]; [None] when the constructor throws. *)
  url_href : string -> string -> option string;
  (** What the checkbox prompt resolves to. *)
  checkbox : string -> list Choice -> list string;
  (** The values the input prompt hands to [validate], attempt by attempt
      (the default stands in for an empty submission). *)
  input_attempts : string -> list string;
  (** [yaml.stringify]. *)
  yaml_stringify : Yaml -> string;
  (** Which pending download settles next: the k-th pick, modulo the number
      of downloads still pending, counts into the pending ones. *)
  settle_picks : list nat;
  (** The constants [includeAll] and [noZip] as the script computes them
      from the parsed arguments, [!!args.all] and
      [!!(args['no-zip'] || args.noZip)]; which spelling on the command line
      sets which key is the argument parser's matter and is not modelled. *)
  includeAll : bool;
  noZip : bool;
}.

(** ** The monad of effects *)

Inductive Outcome (A : Type) :=
| Ok (a : A)
| Throw (e : Failure).

Arguments Ok {A} a.
Arguments Throw {A} e.

Definition M (A : Type) : Type := World -> Outcome A * World.

Definition ret {A} (a : A) : M A := fun w => (Ok a, w).

Definition throw {A} (e : Failure) : M A := fun w => (Throw e, w).

Definition bind {A B} (c : M A) (k : A -> M B) : M B :=
  fun w =>
    match c w with
    | (Ok a, w') => k a w'
    | (Throw e, w') => (Throw e, w')
    end.

(** [try { c } catch (e) { h(e) }]. *)
Definition try_catch {A} (c : M A) (h : Failure -> M A) : M A :=
  fun w =>
    match c w with
    | (Ok a, w') => (Ok a, w')
    | (Throw e, w') => h e w'
    end.

Notation "x <- c ;; k" := (bind c (fun x => k))
  (at level 100, c at next level, right associativity).
Notation "c ;;; k" := (bind c (fun _ => k))
  (at level 100, right associativity).

Definition emit (ev : Event) : M unit :=
  fun w => (Ok tt, {| files := files w; trace := trace w ++ [ev] |}).

Definition console (ch : Channel) (msg : Message) : M unit :=
  emit (Console ch msg).

Definition lift {A} (o : Outcome A) : M A := fun w => (o, w).

Fixpoint mapM {A B} (f : A -> M B) (l : list A) : M (list B) :=
  match l with
  | [] => ret []
  | a :: l' => b <- f a ;; bs <- mapM f l' ;; ret (b :: bs)
  end.

(** [e.message]. *)
Definition message (e : Failure) : string :=
  match e with
  | Error msg => msg
  | TypeError msg => msg
  | PromptAborted => "User force closed the prompt"
  | ProcessExit _ => ""
  | Unsettled => ""
  end.

(** *** The file tree

    The tree is the map of its files; a directory is there through the files
    below it.  The operations succeed, but for reading a file that is not
    there and for removing, without [force], a path that is not there: an
    error of the operating system on a write (a name too long, a full or
    read-only disk) is outside this model, so what is proved of the writes is
    proved of the runs where they succeed. *)

Module Fs.

Definition mkdirSync (p : Path) : M unit := emit (Mkdir p).

Definition writeData (p : Path) (d : FileData) : M unit :=
  fun w =>
    (Ok tt, {| files := <[p := d]> (files w);
               trace := trace w ++ [WriteFile p d] |}).

Definition writeFileSync (p : Path) (s : string) : M unit :=
  writeData p (Text s).

Definition readData (p : Path) : M FileData :=
  fun w =>
    match files w !! p with
    | Some d => (Ok d, w)
    | None => (Throw (Error "ENOENT: no such file or directory"), w)
    end.

Definition outside (p : Path) (q : Path) : Prop := ¬ p `prefix_of` q.

#[global] Instance outside_dec p q : Decision (outside p q).
Proof. unfold outside. apply _. Defined.

(** What is left of a tree once [p] and all below it are gone. *)
Definition prune (p : Path) (t : gmap Path FileData) : gmap Path FileData :=
  filter (fun kv => outside p kv.1) t.

(** Nothing is at [p] or below it. *)
Definition absent (p : Path) (t : gmap Path FileData) : bool :=
  bool_decide (map_Forall (fun q _ => outside p q) t).

(** [fs.rmSync(p, {recursive: true, force})]. *)
Definition rmSync (p : Path) (force : bool) : M unit :=
  fun w =>
    if absent p (files w) && negb force
    then (Throw (Error "ENOENT: no such file or directory"), w)
    else (Ok tt, {| files := prune p (files w);
                    trace := trace w ++ [Remove p] |}).

End Fs.

(** *** The archive ([adm-zip]) *)

Module Zip.

(** The name of an entry: the folder inside the archive, made to end with
    a slash when it is not empty, and the base name of the local file. *)
Definition entry_name (zipPath : string) (p : Path) : string :=
  (if Str.truthy zipPath then zipPath +:+ "/" else "") +:+ PathM.basename p.

(** [zip.addLocalFile(p, zipPath)]. *)
Definition addLocalFile (zip : list (string * FileData)) (p : Path)
    (zipPath : string) : M (list (string * FileData)) :=
  d <- Fs.readData p ;;
  ret (zip ++ [(entry_name zipPath p, d)]).

(** [zip.writeZip(p)]. *)
Definition writeZip (zip : list (string * FileData)) (p : Path) : M unit :=
  Fs.writeData p (Archive zip).

End Zip.

(** *** JavaScript objects as ordered property lists *)

Module Obj.

(** The array index a property key denotes, if it is the canonical decimal
    text of an integer below 2^32 - 1; such keys are enumerated first, in
    increasing order, the others in the order of their creation. *)
Definition index_of_key (k : string) : option N :=
  match Num.parse_digits None k with
  | Some n =>
      if (n <? 4294967295)%N
         && String.eqb (NilEmpty.string_of_uint (N.to_uint n)) k
      then Some n else None
  | None => None
  end.

Fixpoint has (k : string) (props : list (string * Yaml)) : bool :=
  match props with
  | [] => false
  | (k', _) :: rest => String.eqb k' k || has k rest
  end.

(** A function applied to the value of property [k]. *)
Fixpoint alter (f : Yaml -> Yaml) (k : string) (props : list (string * Yaml))
    : list (string * Yaml) :=
  match props with
  | [] => []
  | (k', v) :: rest =>
      if String.eqb k' k then (k', f v) :: rest
      else (k', v) :: alter f k rest
  end.

Fixpoint insert_index (n : N) (k : string) (v : Yaml)
    (props : list (string * Yaml)) : list (string * Yaml) :=
  match props with
  | [] => [(k, v)]
  | (k', v') :: rest =>
      match index_of_key k' with
      | Some n' =>
          if (n <? n')%N then (k, v) :: props
          else (k', v') :: insert_index n k v rest
      | None => (k, v) :: props
      end
  end.

(** [o[k] = v], also a property of an object literal. *)
Definition set (k : string) (v : Yaml) (props : list (string * Yaml))
    : list (string * Yaml) :=
  if has k props then alter (fun _ => v) k props
  else match index_of_key k with
       | Some n => insert_index n k v props
       | None => props ++ [(k, v)]
       end.

(** [o.k = v] on the object a value holds. *)
Definition set_in (k : string) (v : Yaml) (o : Yaml) : Yaml :=
  match o with
  | YMap props => YMap (set k v props)
  | other => other
  end.

End Obj.

(** ** The program *)

Record ModeConfig := {
  fileName : string;
  yamlType : string;
  scriptElementAttributes : option Yaml;
}.

Definition MODES (m : Mode) : ModeConfig :=
  match m with
  | css =>
      {| fileName := "global.css";
         yamlType := "globalCSS";
         scriptElementAttributes := None |}
  | js =>
      {| fileName := "global.js";
         yamlType := "globalJS";
         scriptElementAttributes :=
           Some (YMap [("async", YBool true);
                       ("data-attribute", YStr "value");
                       ("data-senna-track", YStr "permanent");
                       ("fetchpriority", YStr "low")]) |}
  end.

(** [currentMode.toUpperCase()]. *)
Definition mode_upper (m : Mode) : string :=
  match m with css => "CSS" | js => "JS" end.

Definition nl : string := String "010"%char EmptyString.
Definition dquote : string := String "034"%char EmptyString.

(** [results.join(sep)]. *)
Fixpoint join (sep : string) (l : list string) : string :=
  match l with
  | [] => EmptyString
  | [x] => x
  | x :: l' => x +:+ sep +:+ join sep l'
  end.

(** [`/* ${label} */\n${body}`]. *)
Definition fragment (lbl body : string) : string :=
  "/* " +:+ lbl +:+ " */" +:+ nl +:+ body.

(** The state of one promise handed to [Promise.all]. *)
Inductive Slot :=
| Pending (url : string)
| Settled (text : string)
| Rejected (e : Failure).

(** The positions of the downloads still pending, counted from [k]. *)
Fixpoint pending_from (k : nat) (slots : list Slot) : list nat :=
  match slots with
  | [] => []
  | Pending _ :: rest => k :: pending_from (S k) rest
  | _ :: rest => pending_from (S k) rest
  end.

Definition pending_indices (slots : list Slot) : list nat :=
  pending_from 0 slots.

Fixpoint first_rejection (slots : list Slot) : option Failure :=
  match slots with
  | [] => None
  | Rejected e :: _ => Some e
  | _ :: rest => first_rejection rest
  end.

(** The array [Promise.all] resolves with, once every promise is fulfilled. *)
Fixpoint collect (slots : list Slot) : option (list string) :=
  match slots with
  | [] => Some []
  | Settled t :: rest => (fun ts => t :: ts) <$> collect rest
  | _ :: _ => None
  end.

(** The pattern [^[a-zA-Z0-9\s\-]+$] of the name prompt. *)
Definition name_char (c : ascii) : bool :=
  let n := Str.code c in
  ((97 <=? n) && (n <=? 122) || (65 <=? n) && (n <=? 90)
   || (48 <=? n) && (n <=? 57))%N
  || Str.is_space c || (n =? 45)%N.

Definition validate (val : string) : bool :=
  Str.truthy val && Str.forallb name_char val.

Definition falsy (o : option string) : bool :=
  match o with Some s => negb (Str.truthy s) | None => true end.

(** The message and the items of the selection prompt: every resource under
    its label, its position as value, checked. *)
Definition selection_message (currentMode : Mode) : string :=
  "Select which " +:+ mode_upper currentMode +:+ " resources to include:".

Definition selection_choices (resources : list Resource) : list Choice :=
  imap (fun i item =>
          {| name := label item; value := Num.toString i; checked := true |})
    resources.

(** The message and the default of the name prompt. *)
Definition name_message (m : Mode) : string :=
  "Visible name of the Client Extension (" +:+ mode_upper m +:+ "):".

Definition name_default (m : Mode) : string :=
  match m with
  | css => "Liferay CSS Client Extension"
  | js => "Liferay JS Client Extension"
  end.

Section Program.

Context (env : Env).

Definition OUTPUT_DIR : Path := PathM.join (dirname env) "output".
Definition TEMP_DIR : Path := PathM.join OUTPUT_DIR "temp".
Definition ASSETS_DIR : Path := PathM.join TEMP_DIR "assets".

(** [await axios.get(url)], then [.data]. *)
Definition axios (url : string) : M string :=
  emit (HttpGet url) ;;;
  match axios_get env url with
  | inl data => ret data
  | inr msg => throw (Error msg)
  end.

Definition fetchPage (targetUrl : string) : M string :=
  try_catch (axios targetUrl)
    (fun e => throw (Error ("Failed to fetch page: " +:+ message e))).

(** [new URL(ref, base).href]. *)
Definition new_URL (ref base : string) : Outcome string :=
  match url_href env ref base with
  | Some href => Ok href
  | None => Throw (TypeError "Invalid URL")
  end.

(** [$(selector).each(f)], the state of the closure passed along. *)
Fixpoint each {St} (f : St -> Element -> Outcome St) (els : list Element)
    (st : St) : Outcome St :=
  match els with
  | [] => Ok st
  | el :: els' =>
      match f st el with
      | Ok st' => each f els' st'
      | Throw e => Throw e
      end
  end.

(** [found.push({type: 'external', label: full, url: full})] after
    [full = new URL(ref, baseUrl).href]. *)
Definition push_external (ref baseUrl : string) (st : list Resource * nat)
    : Outcome (list Resource * nat) :=
  match new_URL ref baseUrl with
  | Ok full => Ok (st.1 ++ [External full full], st.2)
  | Throw e => Throw e
  end.

(** [found.push({type: 'inline', label: `<tag> inline #${inlineCounter++}`,
    content})]. *)
Definition push_inline (tag : string) (content : string)
    (st : list Resource * nat) : list Resource * nat :=
  (st.1 ++ [Inline ("<" +:+ tag +:+ "> inline #" +:+ Num.toString st.2)
              content],
   S st.2).

Definition visit_css (baseUrl : string) (st : list Resource * nat)
    (el : Element) : Outcome (list Resource * nat) :=
  if String.eqb (tagName el) "link" then
    match attr "href" (attribs el) with
    | Some href =>
        if Str.truthy href then push_external href baseUrl st else Ok st
    | None => Ok st
    end
  else Ok (push_inline "style" (html el) st).

(** The branch of a script without [src]: [if (content?.trim()) ...]. *)
Definition visit_inline_script (st : list Resource * nat) (el : Element)
    : Outcome (list Resource * nat) :=
  let content := html el in
  if Str.truthy (Str.trim content)
  then Ok (push_inline "script" content st)
  else Ok st.

Definition visit_js (baseUrl : string) (st : list Resource * nat)
    (el : Element) : Outcome (list Resource * nat) :=
  match attr "src" (attribs el) with
  | Some src =>
      if Str.truthy src then push_external src baseUrl st
      else visit_inline_script st el
  | None => visit_inline_script st el
  end.

Definition visit (currentMode : Mode) :=
  match currentMode with css => visit_css | js => visit_js end.

Definition css_selector : string :=
  "link[rel=" +:+ dquote +:+ "stylesheet" +:+ dquote +:+ "], style".

Definition matching (html : string) (currentMode : Mode) : list Element :=
  match currentMode with
  | css => cheerio_select env html css_selector
  | js => cheerio_select env html "script"
  end.

Definition parseResources (html baseUrl : string) (currentMode : Mode)
    : Outcome (list Resource) :=
  match each (visit currentMode baseUrl) (matching html currentMode) ([], 1)
  with
  | Ok st => Ok st.1
  | Throw e => Throw e
  end.

(** [await checkbox({message, choices})], for a prompt that resolves: a
    prompt that rejects (closed by the operator, or given no choice at all)
    is not modelled.  The script calls it on the resources it found, and
    only when there is one. *)
Definition checkbox_prompt (msg : string) (choices : list Choice)
    : M (list string) :=
  emit (Checkbox msg choices) ;;; ret (checkbox env msg choices).

Definition promptSelection (resources : list Resource) (currentMode : Mode)
    (includeAllFlag : bool) : M (list (option Resource)) :=
  if includeAllFlag then
    console log (MsgAllIncluded currentMode) ;;;
    ret (Some <$> resources)
  else
    choices <-
      checkbox_prompt (selection_message currentMode)
        (selection_choices resources) ;;
    if Nat.eqb (length choices) 0 then
      console log (MsgNoneSelected currentMode) ;;;
      ret []
    else
      ret ((fun i => Num.index resources (Num.parseInt i)) <$> choices).

(** The body of the callback of [resources.map] up to its first [await]:
    an inline resource is done at once, a download is started, and on
    [undefined] the read of [res.type] rejects the promise, with the
    message of the engine. *)
Definition start_task (res : option Resource) : M Slot :=
  match res with
  | Some (External _ url) => emit (HttpGet url) ;;; ret (Pending url)
  | Some (Inline lbl content) =>
      console log (MsgLoadedInline lbl) ;;;
      ret (Settled (fragment lbl content))
  | None =>
      ret (Rejected
             (TypeError
                "Cannot read properties of undefined (reading 'type')"))
  end.

(** The rest of the callback, run when the download of [url] settles. *)
Definition settle_task (url : string) : M Slot :=
  match axios_get env url with
  | inl data =>
      console log (MsgLoadedExternal url) ;;;
      ret (Settled (fragment url data))
  | inr msg =>
      console warn (MsgFailedToLoad url msg) ;;;
      ret (Settled EmptyString)
  end.

(** The pending downloads settle one after the other, in the order the
    picks give; each writes its own slot. *)
Fixpoint settle_loop (fuel : nat) (picks : list nat) (slots : list Slot)
    : M (list Slot) :=
  match fuel with
  | 0 => ret slots
  | S fuel' =>
      match pending_indices slots with
      | [] => ret slots
      | i0 :: rest =>
          let i := nth (hd 0 picks `mod` S (length rest)) (i0 :: rest) i0 in
          match slots !! i with
          | Some (Pending url) =>
              s <- settle_task url ;;
              settle_loop fuel' (tl picks) (<[i := s]> slots)
          | _ => ret slots
          end
      end
  end.

(** [await Promise.all(resources.map(async (res) => ...))], then the join.
    A promise rejected during the map rejects the whole at once: the world
    returned with the error is the one at the throw, where the requests
    issued by the map are still pending; what a pending request does later
    is no part of the call.  [Unsettled] stands for an [await] that never
    returns. *)
Definition downloadResources (resources : list (option Resource))
    : M string :=
  slots <- mapM start_task resources ;;
  match first_rejection slots with
  | Some e => throw e
  | None =>
      slots' <- settle_loop (length slots) (settle_picks env) slots ;;
      match collect slots' with
      | Some results => ret (join (nl +:+ nl) results)
      | None => throw Unsettled
      end
  end.

(** The object handed to [yaml.stringify]. *)
Definition manifest (technicalName visibleName : string) (currentMode : Mode)
    (fileName : string) : Yaml :=
  let base :=
    Obj.set technicalName
      (YMap [("name", YStr visibleName);
             ("type", YStr (yamlType (MODES currentMode)));
             ("url", YStr fileName)])
      (Obj.set "assemble"
         (YSeq [YMap [("from", YStr "assets"); ("into", YStr "static")]])
         []) in
  match currentMode with
  | js =>
      match scriptElementAttributes (MODES js) with
      | Some attrs =>
          YMap (Obj.alter (Obj.set_in "scriptElementAttributes" attrs)
                  technicalName base)
      | None => YMap base
      end
  | css => YMap base
  end.

Definition generateYaml (technicalName visibleName : string)
    (currentMode : Mode) (fileName : string) : string :=
  yaml_stringify env (manifest technicalName visibleName currentMode fileName).

Definition saveFiles (fileName content yamlContent technicalName : string)
    (noZipFlag : bool) : M unit :=
  Fs.mkdirSync ASSETS_DIR ;;;
  let filePath := PathM.join ASSETS_DIR fileName in
  let yamlPath := PathM.join TEMP_DIR "client-extension.yaml" in
  Fs.writeFileSync filePath content ;;;
  Fs.writeFileSync yamlPath yamlContent ;;;
  let zipPath := PathM.join OUTPUT_DIR (technicalName +:+ ".zip") in
  if negb noZipFlag then
    zip <- Zip.addLocalFile [] filePath "assets" ;;
    zip <- Zip.addLocalFile zip yamlPath "" ;;
    Zip.writeZip zip zipPath ;;;
    console log (MsgZipCreated zipPath) ;;;
    Fs.rmSync TEMP_DIR true
  else
    console log (MsgSavedWithoutZip TEMP_DIR) ;;;
    console log MsgOverwriteNote.

(** [await input({message, default, validate})]: the prompt resolves with
    the first submission that [validate] accepts. *)
Definition input (msg default : string) (validate : string -> bool)
    : M string :=
  emit (Input msg default) ;;;
  match List.find validate (input_attempts env msg) with
  | Some val => ret val
  | None => throw PromptAborted
  end.

(** The visible name: the shared one when it is truthy, else the answer
    of the prompt. *)
Definition ask_name (currentMode : Mode) (sharedVisibleName : option string)
    : M string :=
  let ask :=
    input (name_message currentMode) (name_default currentMode) validate in
  match sharedVisibleName with
  | Some given => if Str.truthy given then ret given else ask
  | None => ask
  end.

Definition runOnce (targetUrl : string) (currentMode : Mode)
    (sharedVisibleName : option string) : M unit :=
  console log (MsgFetching targetUrl currentMode) ;;;
  html <- fetchPage targetUrl ;;
  found <- lift (parseResources html targetUrl currentMode) ;;
  if Nat.eqb (length found) 0 then
    console log (MsgNoResources currentMode)
  else
    selected <- promptSelection found currentMode (includeAll env) ;;
    if Nat.eqb (length selected) 0 then ret tt
    else
      visibleName <- ask_name currentMode sharedVisibleName ;;
      let technicalName := slugify visibleName (mode_str currentMode) in
      let fileName := fileName (MODES currentMode) in
      console log (MsgSelectedBlocks currentMode (length selected)) ;;;
      combined <- downloadResources selected ;;
      let yamlContent :=
        generateYaml technicalName visibleName currentMode fileName in
      saveFiles fileName combined yamlContent technicalName (noZip env).

(** The entry point; [mode] and [sharedName] are the parsed options, taken
    to be strings or [undefined] (a name that the argument parser hands over
    as a number is outside the model). *)
Definition main (url : string) (mode sharedName : option string) : M unit :=
  if falsy mode then
    runOnce url css sharedName ;;;
    runOnce url js sharedName
  else if bool_decide (mode = Some "css") then runOnce url css sharedName
  else if bool_decide (mode = Some "js") then runOnce url js sharedName
  else
    console error MsgInvalidMode ;;;
    throw (ProcessExit 1).

End Program.

(** ** Notions the statements use *)

(** The environment with another settling order, all else the same. *)
Definition with_picks (env : Env) (picks : list nat) : Env :=
  {| dirname := dirname env;
     axios_get := axios_get env;
     cheerio_select := cheerio_select env;
     url_href := url_href env;
     checkbox := checkbox env;
     input_attempts := input_attempts env;
     yaml_stringify := yaml_stringify env;
     settle_picks := picks;
     includeAll := includeAll env;
     noZip := noZip env |}.

(** The text one reference resolves to: header and body, or nothing for a
    download that failed. *)
Definition resolved_text (env : Env) (r : Resource) : string :=
  match r with
  | External _ url =>
      match axios_get env url with
      | inl data => fragment url data
      | inr _ => EmptyString
      end
  | Inline lbl content => fragment lbl content
  end.

(** The resolved content of the specification: the body of a reference that
    succeeded, [None] for a download that failed. *)
Definition resolved_body (env : Env) (r : Resource) : option string :=
  match r with
  | External _ url =>
      match axios_get env url with
      | inl data => Some data
      | inr _ => None
      end
  | Inline _ content => Some content
  end.

(** The merge of the specification: every body under a header that restates
    the label, nothing for a failed reference, a blank line between the
    entries. *)
Definition merged (env : Env) (refs : list Resource) : string :=
  join (nl +:+ nl)
    ((fun r =>
        match resolved_body env r with
        | Some body => fragment (label r) body
        | None => EmptyString
        end) <$> refs).

(** The merge in the words of the specification, with its text spelled out
    and without the operations of the script: the entry of a reference that
    succeeded is its body under a comment line that holds its label, the
    entry of a failed reference is empty, and the first entry is followed by
    every further one after a blank line. *)
Module MergeSpec.

Definition line_feed : string := String "010"%char EmptyString.

Definition entry (lbl : string) (body : option string) : string :=
  match body with
  | Some text => "/* " +:+ lbl +:+ " */" +:+ line_feed +:+ text
  | None => EmptyString
  end.

Definition after_blank_line (e : string) : string :=
  line_feed +:+ line_feed +:+ e.

Definition separated (entries : list string) : string :=
  match entries with
  | [] => EmptyString
  | e :: rest => e +:+ SlugSpec.concat (after_blank_line <$> rest)
  end.

Definition entries (env : Env) (refs : list Resource) : list string :=
  (fun r => entry (label r) (resolved_body env r)) <$> refs.

End MergeSpec.

(** The promise of a reference right after [resources.map], and what
    starting it shows. *)
Definition initial_slot (r : Resource) : Slot :=
  match r with
  | External _ url => Pending url
  | Inline lbl content => Settled (fragment lbl content)
  end.

Definition start_event (r : Resource) : Event :=
  match r with
  | External _ url => HttpGet url
  | Inline lbl _ => Console log (MsgLoadedInline lbl)
  end.

(** Every slot holds the text of its reference, or still its first state. *)
Definition slots_for (env : Env) (refs : list Resource) (slots : list Slot)
    : Prop :=
  Forall2 (fun r s => s = Settled (resolved_text env r) \/ s = initial_slot r)
    refs slots.

(** The world with more events. *)
Definition logged (w : World) (evs : list Event) : World :=
  {| files := files w; trace := trace w ++ evs |}.

(** What a download prints when it settles. *)
Definition settle_event (env : Env) (url : string) : Event :=
  match axios_get env url with
  | inl _ => Console log (MsgLoadedExternal url)
  | inr msg => Console warn (MsgFailedToLoad url msg)
  end.

(** A reference as the discovery builds it: the label of an external one is
    its locator. *)
Definition well_labelled (r : Resource) : Prop :=
  match r with
  | External lbl url => lbl = url
  | Inline _ _ => True
  end.

(** What is done with one matching element. *)
Inductive Verdict :=
| Skip
| EmitExternal (locator : string)
| EmitInline (tag content : string).

Definition blank (content : string) : bool := Str.forallb Str.is_space content.

(** The rule the loop of [parseResources] follows, stated apart from the
    loop: a locator counts when it is truthy, and a script whose [src] is
    missing or empty is decided by its content. *)
Definition verdict (m : Mode) (el : Element) : Verdict :=
  match m with
  | css =>
      if bool_decide (tagName el = "link") then
        match attr "href" (attribs el) with
        | Some "" | None => Skip
        | Some href => EmitExternal href
        end
      else EmitInline "style" (html el)
  | js =>
      match attr "src" (attribs el) with
      | Some "" | None =>
          if blank (html el) then Skip else EmitInline "script" (html el)
      | Some src => EmitExternal src
      end
  end.

(** The rule in the words of the specification: a script is external when it
    has a [src] attribute and inline otherwise; an external element whose
    locator is missing or empty is skipped; an inline script is skipped when
    its content is blank, an inline style is always emitted. *)
Definition spec_verdict (m : Mode) (el : Element) : Verdict :=
  match m with
  | css =>
      if bool_decide (tagName el = "link") then
        match attr "href" (attribs el) with
        | Some "" | None => Skip
        | Some href => EmitExternal href
        end
      else EmitInline "style" (html el)
  | js =>
      match attr "src" (attribs el) with
      | Some "" => Skip
      | Some src => EmitExternal src
      | None =>
          if blank (html el) then Skip else EmitInline "script" (html el)
      end
  end.

(** [Discovered env base m n els found]: walking [els] in order, with [n] the
    number of the next inline reference, emits exactly [found]. *)
Inductive Discovered (env : Env) (baseUrl : string) (m : Mode)
    : nat -> list Element -> list Resource -> Prop :=
| disc_nil n : Discovered env baseUrl m n [] []
| disc_skip n el els found :
    verdict m el = Skip ->
    Discovered env baseUrl m n els found ->
    Discovered env baseUrl m n (el :: els) found
| disc_external n el els found locator full :
    verdict m el = EmitExternal locator ->
    url_href env locator baseUrl = Some full ->
    Discovered env baseUrl m n els found ->
    Discovered env baseUrl m n (el :: els) (External full full :: found)
| disc_inline n el els found tag content :
    verdict m el = EmitInline tag content ->
    Discovered env baseUrl m (S n) els found ->
    Discovered env baseUrl m n (el :: els)
      (Inline ("<" +:+ tag +:+ "> inline #" +:+ Num.toString n) content
         :: found).

(** What the gate returns and what it shows, as functions of the answers. *)
Definition approved (env : Env) (resources : list Resource) (m : Mode)
    (flag : bool) : list (option Resource) :=
  if flag then Some <$> resources
  else
    let choices :=
      checkbox env (selection_message m) (selection_choices resources) in
    if Nat.eqb (length choices) 0 then []
    else (fun i => Num.index resources (Num.parseInt i)) <$> choices.

Definition selection_events (env : Env) (resources : list Resource) (m : Mode)
    (flag : bool) : list Event :=
  if flag then [Console log (MsgAllIncluded m)]
  else
    let choices :=
      checkbox env (selection_message m) (selection_choices resources) in
    Checkbox (selection_message m) (selection_choices resources)
      :: (if Nat.eqb (length choices) 0
          then [Console log (MsgNoneSelected m)] else []).

(** The visible name a run works with, and what asking for it shows. *)
Definition named (env : Env) (m : Mode) (shared : option string)
    : Outcome string :=
  match shared with
  | Some (String c given) => Ok (String c given)
  | _ =>
      match List.find validate (input_attempts env (name_message m)) with
      | Some val => Ok val
      | None => Throw PromptAborted
      end
  end.

Definition name_events (m : Mode) (shared : option string) : list Event :=
  if falsy shared then [Input (name_message m) (name_default m)] else [].

(** The prompts among the events. *)
Definition is_checkbox (ev : Event) : bool :=
  match ev with Checkbox _ _ => true | _ => false end.

(** What a technical identifier is: the slug of some name for some class. *)
Definition is_technicalId (t : string) : Prop :=
  exists visibleName m, t = slugify visibleName (mode_str m).

(** The manifest the specification describes. *)
Definition expected_manifest (technicalId visibleName : string) (m : Mode)
    (outputFileName : string) : Yaml :=
  YMap
    [("assemble",
      YSeq [YMap [("from", YStr "assets"); ("into", YStr "static")]]);
     (technicalId,
      YMap ([("name", YStr visibleName);
             ("type", YStr (match m with css => "globalCSS" | js => "globalJS" end));
             ("url", YStr outputFileName)]
            ++ match m with
               | css => []
               | js =>
                   [("scriptElementAttributes",
                     YMap [("async", YBool true);
                           ("data-attribute", YStr "value");
                           ("data-senna-track", YStr "permanent");
                           ("fetchpriority", YStr "low")])]
               end))].

(** The output layout of the specification, below the directory of the
    program: [output/<technicalId>.zip], and the staging tree [output/temp]
    with [assets/<file>] and [client-extension.yaml]. *)
Module Layout.

Definition staging (env : Env) : Path := dirname env ++ ["output"; "temp"].

Definition content_path (env : Env) (outputFileName : string) : Path :=
  dirname env ++ ["output"; "temp"; "assets"; outputFileName].

Definition manifest_path (env : Env) : Path :=
  dirname env ++ ["output"; "temp"; "client-extension.yaml"].

Definition archive_path (env : Env) (technicalId : string) : Path :=
  dirname env ++ ["output"; technicalId +:+ ".zip"].

(** The archive: the content file under [assets], the manifest at the
    root. *)
Definition archive (outputFileName content manifestDoc : string) : FileData :=
  Archive [("assets/" +:+ outputFileName, Text content);
           ("client-extension.yaml", Text manifestDoc)].

(** The files of the staging tree after the two writes. *)
Definition staged (env : Env) (outputFileName content manifestDoc : string)
    (t : gmap Path FileData) : gmap Path FileData :=
  <[manifest_path env := Text manifestDoc]>
    (<[content_path env outputFileName := Text content]> t).

End Layout.

(** ** Sample runs *)

Module Sample.

Definition link (href : string) : Element :=
  {| tagName := "link";
     attribs := [("rel", "stylesheet"); ("href", href)];
     html := "" |}.

Definition style (content : string) : Element :=
  {| tagName := "style"; attribs := []; html := content |}.

Definition script (src : option string) (content : string) : Element :=
  {| tagName := "script";
     attribs := match src with Some u => [("src", u)] | None => [] end;
     html := content |}.

(** A page with two stylesheets (the second one answers 404), two style
    blocks and four scripts; [report] is what the checkbox resolves to. *)
Definition env_with (report : list string) (picks : list nat)
    (all zipless : bool) : Env :=
  {| dirname := ["app"];
     axios_get := fun url =>
       if String.eqb url "http://x/" then inl "<html>"
       else if String.eqb url "http://x/a.css" then inl "a{}"
       else inr "Request failed with status code 404";
     cheerio_select := fun _ selector =>
       if String.eqb selector "script"
       then [script (Some "s.js") ""; script None "  ";
             script None "alert(1)"; script (Some "") "x()"]
       else [link "a.css"; style "body{color:red}"; link "";
             link "b.css"; style ""];
     url_href := fun ref base => Some (base +:+ ref);
     checkbox := fun _ _ => report;
     input_attempts := fun _ => ["bad!"; "My Site"];
     yaml_stringify := fun _ => "manifest";
     settle_picks := picks;
     includeAll := all;
     noZip := zipless |}.

(** Everything approved and archived. *)
Definition env : Env := env_with [] [1] true false.

(** The operator asked, the third item reported before the first, the
    files kept. *)
Definition env_ask : Env := env_with ["2"; "0"] [] false true.

(** The operator asked, the first and the third item reported in order. *)
Definition env_sorted : Env := env_with ["0"; "2"] [] false false.

(** A page that cannot be fetched. *)
Definition env_down : Env :=
  {| dirname := dirname env;
     axios_get := fun _ => inr "connect ECONNREFUSED";
     cheerio_select := cheerio_select env;
     url_href := url_href env;
     checkbox := checkbox env;
     input_attempts := input_attempts env;
     yaml_stringify := yaml_stringify env;
     settle_picks := [];
     includeAll := true;
     noZip := false |}.

(** A page without any resource, and an operator who picks nothing. *)
Definition env_empty : Env :=
  {| dirname := dirname env;
     axios_get := axios_get env;
     cheerio_select := fun _ _ => [];
     url_href := url_href env;
     checkbox := fun _ _ => [];
     input_attempts := input_attempts env;
     yaml_stringify := yaml_stringify env;
     settle_picks := [];
     includeAll := false;
     noZip := false |}.

Definition world : World := {| files := ∅; trace := [] |}.

Definition a : Resource := External "http://x/a.css" "http://x/a.css".
Definition b : Resource := Inline "<style> inline #1" "body{color:red}".
Definition c : Resource := External "http://x/b.css" "http://x/b.css".

End Sample.

(** ** Further notions *)

(** [o[k]]: the value of property [k], [None] for [undefined]. *)
Fixpoint prop (k : string) (props : list (string * Yaml)) : option Yaml :=
  match props with
  | [] => None
  | (k', v) :: rest => if String.eqb k' k then Some v else prop k rest
  end.

(** The two values of the manifest. *)
Definition assemble_instruction : Yaml :=
  YSeq [YMap [("from", YStr "assets"); ("into", YStr "static")]].

Definition manifest_entry (visibleName : string) (m : Mode)
    (outputFileName : string) : Yaml :=
  YMap ([("name", YStr visibleName);
         ("type", YStr (yamlType (MODES m)));
         ("url", YStr outputFileName)]
        ++ match m, scriptElementAttributes (MODES m) with
           | js, Some attrs => [("scriptElementAttributes", attrs)]
           | _, _ => []
           end).

(** The label of the [n]-th inline reference of a class. *)
Definition inline_tag (m : Mode) : string :=
  match m with css => "style" | js => "script" end.

Definition inline_label (m : Mode) (n : nat) : string :=
  "<" +:+ inline_tag m +:+ "> inline #" +:+ Num.toString n.

Definition inline_labels (found : list Resource) : list string :=
  omap (fun r => match r with Inline lbl _ => Some lbl | External _ _ => None end)
    found.

(** The locators of the external references, in order. *)
Definition external_urls (refs : list Resource) : list string :=
  omap (fun r => match r with External _ url => Some url | Inline _ _ => None end)
    refs.

(** The locators of the downloads still pending, in order. *)
Definition pending_urls (slots : list Slot) : list string :=
  omap (fun s => match s with Pending url => Some url | _ => None end) slots.

(** The promise of an element of the approved list, [undefined] included,
    and what starting the tasks shows. *)
Definition first_slot (res : option Resource) : Slot :=
  match res with
  | Some r => initial_slot r
  | None =>
      Rejected
        (TypeError "Cannot read properties of undefined (reading 'type')")
  end.

Definition start_events (selected : list (option Resource)) : list Event :=
  omap (fmap start_event) selected.

(** What [saveFiles] does to the file tree and shows, in order. *)
Definition save_events (env : Env)
    (outputFileName content manifestDoc technicalName : string)
    (noZipFlag : bool) : list Event :=
  [Mkdir (dirname env ++ ["output"; "temp"; "assets"]);
   WriteFile (Layout.content_path env outputFileName) (Text content);
   WriteFile (Layout.manifest_path env) (Text manifestDoc)]
  ++ (if noZipFlag
      then [Console log (MsgSavedWithoutZip (Layout.staging env));
            Console log MsgOverwriteNote]
      else [WriteFile (Layout.archive_path env technicalName)
              (Layout.archive outputFileName content manifestDoc);
            Console log (MsgZipCreated (Layout.archive_path env technicalName));
            Remove (Layout.staging env)]).

(** The events that touch the file tree. *)
Definition is_fs_event (ev : Event) : bool :=
  match ev with
  | Mkdir _ | WriteFile _ _ | Remove _ => true
  | _ => false
  end.

(** The stem of a slug: the part before the hyphen of the suffix. *)
Definition slug_stem (visibleName : string) : string :=
  Str.strip_non_slug (Str.replace_ws (Str.toLowerCase visibleName)).

(** The attribute that carries the locator of an external element. *)
Definition locator_attr (m : Mode) : string :=
  match m with css => "href" | js => "src" end.

(** The locators requested over the network, in order. *)
Definition requests (t : list Event) : list string :=
  omap (fun ev => match ev with HttpGet url => Some url | _ => None end) t.

(** ** The earlier variant of the script

    The file also holds the earlier [extractResources], which resolves the
    approved references one after the other; this is its loop
    [for (const res of selected) { ... }] over the string [combined]. *)

Module Legacy.

Section Loop.

Context (env : Env).

(** One turn of the loop. *)
Definition step (combined : string) (res : option Resource) : M string :=
  match res with
  | Some (External _ url) =>
      try_catch
        (data <- axios env url ;;
         console log (MsgLoadedExternal url) ;;;
         ret (combined +:+ fragment url data +:+ nl +:+ nl))
        (fun e =>
           console warn (MsgFailedToLoad url (message e)) ;;;
           ret combined)
  | Some (Inline lbl content) =>
      console log (MsgLoadedInline lbl) ;;;
      ret (combined +:+ fragment lbl content +:+ nl +:+ nl)
  | None =>
      throw (TypeError "Cannot read properties of undefined (reading 'type')")
  end.

Fixpoint combine (selected : list (option Resource)) (combined : string)
    : M string :=
  match selected with
  | [] => ret combined
  | res :: rest => c <- step combined res ;; combine rest c
  end.

End Loop.

(** What one reference adds to [combined], and what its turn shows. *)
Definition appended (env : Env) (r : Resource) : string :=
  match resolved_body env r with
  | Some _ => resolved_text env r +:+ nl +:+ nl
  | None => EmptyString
  end.

Definition turn_events (env : Env) (r : Resource) : list Event :=
  match r with
  | External _ url => [HttpGet url; settle_event env url]
  | Inline lbl _ => [Console log (MsgLoadedInline lbl)]
  end.

End Legacy.

(** ** More sample runs *)

Module Scenario.


(** A page whose stylesheet link cannot be resolved. *)
Definition env_bad_url : Env :=
  {| dirname := ["app"];
     axios_get := axios_get Sample.env;
     cheerio_select := cheerio_select Sample.env;
     url_href := fun ref base =>
       if String.eqb ref "b.css" then None else Some (base +:+ ref);
     checkbox := fun _ _ => [];
     input_attempts := fun _ => [];
     yaml_stringify := fun _ => "manifest";
     settle_picks := [];
     includeAll := true;
     noZip := false |}.

(** An operator who accepts the list as it is presented. *)
Definition env_accept : Env :=
  {| dirname := ["app"];
     axios_get := axios_get Sample.env;
     cheerio_select := cheerio_select Sample.env;
     url_href := url_href Sample.env;
     checkbox := fun _ choices => value <$> choices;
     input_attempts := fun _ => ["My Site"];
     yaml_stringify := fun _ => "manifest";
     settle_picks := [];
     includeAll := false;
     noZip := false |}.

End Scenario.

(** * Properties *)

#[local] Arguments String.append !_ _ / : simpl nomatch.

(** ** Strings *)

Section StringFacts.

Implicit Types (s t u : string) (c : ascii).

Lemma sapp_assoc s t u : (s +:+ t) +:+ u = s +:+ (t +:+ u).
Proof. induction s as [|c s IH]; simpl; [done | by rewrite IH]. Qed.

Lemma sapp_nil_r s : s +:+ "" = s.
Proof. induction s as [|c s IH]; simpl; [done | by rewrite IH]. Qed.

Lemma slength_app s t :
  String.length (s +:+ t) = String.length s + String.length t.
Proof. induction s as [|c s IH]; simpl; [done | by rewrite IH]. Qed.

Lemma toLowerCase_app s t :
  Str.toLowerCase (s +:+ t) = Str.toLowerCase s +:+ Str.toLowerCase t.
Proof. induction s as [|c s IH]; simpl; [done | by rewrite IH]. Qed.

Lemma strip_app s t :
  Str.strip_non_slug (s +:+ t)
  = Str.strip_non_slug s +:+ Str.strip_non_slug t.
Proof.
  induction s as [|c s IH]; simpl; [done |].
  destruct (Str.slug_char c); simpl; by rewrite IH.
Qed.

(** Lowercasing neither makes nor unmakes a whitespace code unit. *)
Lemma is_space_lower c : Str.is_space (Str.lower_char c) = Str.is_space c.
Proof. by destruct c as [[] [] [] [] [] [] [] []]. Qed.

Lemma lower_space c : Str.is_space c = true -> Str.lower_char c = c.
Proof. by destruct c as [[] [] [] [] [] [] [] []]. Qed.

Lemma space_not_slug c : Str.is_space c = true -> Str.slug_char c = false.
Proof. by destruct c as [[] [] [] [] [] [] [] []]. Qed.

Lemma trimStart_lower s :
  Str.trimStart (Str.toLowerCase s) = Str.toLowerCase (Str.trimStart s).
Proof.
  induction s as [|c s IH]; simpl; [done |].
  rewrite is_space_lower. by destruct (Str.is_space c).
Qed.

Lemma trimEnd_lower s :
  Str.trimEnd (Str.toLowerCase s) = Str.toLowerCase (Str.trimEnd s).
Proof.
  induction s as [|c s IH]; simpl; [done |].
  rewrite IH, is_space_lower.
  destruct (Str.trimEnd s); simpl; [by destruct (Str.is_space c) | done].
Qed.

Lemma trimEnd_empty s :
  Str.trimEnd s = "" <-> Str.forallb Str.is_space s = true.
Proof.
  induction s as [|c s IH]; simpl; [done |].
  destruct (Str.trimEnd s) eqn:E.
  - destruct (Str.is_space c); simpl; [tauto | split; [done |]].
    discriminate.
  - split; [done |]. intros [_ H]%andb_prop. destruct IH as [_ IH].
    by specialize (IH H).
Qed.

Lemma trimEnd_cons_nonspace c s :
  Str.is_space c = false -> Str.trimEnd (String c s) = String c (Str.trimEnd s).
Proof. intros H. simpl. rewrite H. by destruct (Str.trimEnd s). Qed.

Lemma trimStart_length s :
  String.length (Str.trimStart s) <= String.length s.
Proof.
  induction s as [|c s IH]; simpl; [lia |].
  destruct (Str.is_space c); simpl; lia.
Qed.

Lemma trimStart_fixed_head c s :
  Str.trimStart (String c s) = String c s -> Str.is_space c = false.
Proof.
  simpl. destruct (Str.is_space c); [|done]. intros H.
  pose proof (trimStart_length s) as Hl. rewrite H in Hl. simpl in Hl. lia.
Qed.

(** Inside a run the scanner first skips what is left of the run. *)
Lemma replace_ws_in_run s :
  Str.replace_ws_from true s = Str.replace_ws_from false (Str.trimStart s).
Proof.
  induction s as [|c s IH]; simpl; [done |].
  destruct (Str.is_space c) eqn:E; simpl; [done | by rewrite E].
Qed.

(** A trailing whitespace code unit closes the text with one hyphen, unless
    the scanner was inside a run that reaches the end. *)
Lemma replace_ws_snoc b s c :
  Str.is_space c = true ->
  Str.replace_ws_from b (s +:+ String c "")
  = if b && Str.forallb Str.is_space s then ""
    else Str.replace_ws_from b (Str.trimEnd s) +:+ "-".
Proof.
  intros Hc. revert b. induction s as [|x s IH]; intros b; simpl.
  - rewrite Hc. by destruct b.
  - destruct (Str.is_space x) eqn:Hx; simpl.
    + rewrite (IH true). simpl.
      destruct (Str.forallb Str.is_space s) eqn:Hall.
      * apply trimEnd_empty in Hall. rewrite Hall. simpl.
        destruct b; simpl; done.
      * destruct (Str.trimEnd s) eqn:Ht.
        { apply trimEnd_empty in Ht. congruence. }
        rewrite andb_false_r. simpl. rewrite Hx. by destruct b.
    + rewrite (IH false). simpl. rewrite andb_false_r.
      destruct (Str.trimEnd s); simpl; by rewrite Hx.
Qed.

End StringFacts.

(** ** The slug *)

Section Slug.

Import SlugSpec.

Implicit Types (s t : string) (c : ascii) (m : Mode).

Lemma concat_app (l k : list string) : concat (l ++ k) = concat l +:+ concat k.
Proof.
  induction l as [|x l IH]; simpl; [done |].
  rewrite IH. symmetry. apply sapp_assoc.
Qed.

(** The scanner and the filter together treat the text run by run. *)
Lemma strip_replace_runs s :
  Str.strip_non_slug (Str.replace_ws_from false s)
  = concat (slug_of_run <$> runs s)
  /\ Str.strip_non_slug (Str.replace_ws_from true s)
     = concat (slug_of_run <$> after_leading_ws (runs s)).
Proof.
  induction s as [|c s [IH1 IH2]]; simpl; [done |].
  destruct (Str.is_space c) eqn:Hc; simpl.
  - rewrite IH2. destruct (runs s) as [|[[] r] rs]; simpl; done.
  - rewrite IH1.
    destruct (runs s) as [|[[] r] rs]; simpl;
      unfold slug_of_run; simpl; destruct (Str.slug_char c); simpl; done.
Qed.

Lemma runs_nil s : runs s = [] -> s = "".
Proof.
  destruct s as [|c s]; simpl; [done |].
  destruct (runs s) as [|[b r] rs]; [done |].
  by destruct (Bool.eqb (Str.is_space c) b).
Qed.

Lemma runs_head c s :
  exists r rs, runs (String c s) = (Str.is_space c, r) :: rs.
Proof.
  simpl. destruct (runs s) as [|[b r] rs]; [by eauto |].
  destruct (Bool.eqb (Str.is_space c) b); eauto.
Qed.

(** A code unit put in front of a text leaves the kind of its last run. *)
Lemma runs_last_cons c s :
  s <> "" -> fst <$> last (runs (String c s)) = fst <$> last (runs s).
Proof.
  intros Hs. simpl. destruct (runs s) as [|[b r] rs] eqn:E.
  - by apply runs_nil in E.
  - destruct (Bool.eqb (Str.is_space c) b) eqn:Hb.
    + apply Bool.eqb_prop in Hb. subst b. by destruct rs.
    + done.
Qed.

Lemma runs_head_trimmed s :
  Str.trimStart s = s -> fst <$> head (runs s) <> Some true.
Proof.
  destruct s as [|c s]; [done |]. intros H%trimStart_fixed_head.
  destruct (runs_head c s) as (r & rs & ->). simpl. by rewrite H.
Qed.

Lemma trimEnd_fixed_tail c s :
  s <> "" -> Str.trimEnd (String c s) = String c s -> Str.trimEnd s = s.
Proof.
  intros Hs H. cbn [Str.trimEnd] in H.
  destruct (Str.trimEnd s) eqn:E.
  - destruct (Str.is_space c); [done |]. injection H as H. by subst s.
  - by injection H.
Qed.

Lemma runs_last_trimmed s :
  Str.trimEnd s = s -> fst <$> last (runs s) <> Some true.
Proof.
  induction s as [|c s IH]; [done |]. intros H.
  destruct s as [|c' s'].
  - simpl in *. by destruct (Str.is_space c).
  - rewrite runs_last_cons by done. apply IH.
    by apply (trimEnd_fixed_tail c).
Qed.

(** Where no whitespace run stands first or last, leaving those runs alone
    and replacing them come to the same. *)
Lemma collapse_inner_all first (rs : list run) :
  (first = true -> fst <$> head rs <> Some true) ->
  fst <$> last rs <> Some true ->
  Str.strip_non_slug (concat (collapse_inner first rs))
  = concat (slug_of_run <$> rs).
Proof.
  revert first. induction rs as [|[ws r] rs IH]; intros first Hh Hl; [done |].
  simpl. rewrite strip_app. rewrite (IH false).
  - f_equal. unfold slug_of_run. simpl. destruct ws; simpl; [|done].
    destruct first; [by destruct Hh |]. simpl.
    destruct rs; [by destruct Hl |]. by rewrite bool_decide_eq_false_2.
  - done.
  - destruct rs; [done |]. by rewrite last_cons_cons in Hl.
Qed.

End Slug.

(** C1 (as amended).  The technical identifier is the slug of the visible
    name: the name is lowercased, every maximal whitespace run, the leading
    and the trailing one included, becomes one hyphen, the code units outside
    [[a-z0-9-]] are dropped, and [-css] or [-js] is appended.  For a name that
    neither starts nor ends with whitespace this is the rule of the
    specification, which collapses the internal runs.  The name
    "My Cool Site!" with class css yields "my-cool-site-css". *)
Theorem technicalId_slug_of_all_runs :
  (forall visibleName m,
     slugify visibleName (mode_str m)
     = SlugSpec.technicalId_all_runs visibleName m)
  /\ (forall visibleName m,
       Str.trimStart visibleName = visibleName ->
       Str.trimEnd visibleName = visibleName ->
       slugify visibleName (mode_str m) = SlugSpec.technicalId visibleName m)
  /\ slugify "My Cool Site!" (mode_str css) = "my-cool-site-css".
Proof.
  split; [|split]; [| |reflexivity].
  - intros name m. unfold slugify, SlugSpec.technicalId_all_runs.
    f_equal. apply strip_replace_runs.
  - intros name m Hs He. unfold slugify, SlugSpec.technicalId.
    f_equal. unfold SlugSpec.collapse_internal, Str.replace_ws.
    rewrite collapse_inner_all.
    + apply (proj1 (strip_replace_runs _)).
    + intros _. apply runs_head_trimmed. by rewrite trimStart_lower, Hs.
    + apply runs_last_trimmed. by rewrite trimEnd_lower, He.
Qed.

(** The rule at a name without whitespace at its ends, and the example. *)
Lemma technicalId_slug_of_all_runs_witness :
  slugify "My Cool Site!" (mode_str css)
  = SlugSpec.technicalId "My Cool Site!" css.
Proof.
  apply (proj1 (proj2 technicalId_slug_of_all_runs) "My Cool Site!" css);
    reflexivity.
Defined.

(** C1 as the specification words it fails on a name with whitespace at an
    end: the code turns the leading and the trailing run into hyphens, the
    rule for internal runs leaves them to be dropped. *)
Lemma technicalId_internal_runs_counterexample :
  slugify " My Site " (mode_str css) <> SlugSpec.technicalId " My Site " css.
Proof. by vm_compute. Qed.

Example slugify_separators : slugify "A  B_C 9" "js" = "a-bc-9-js".
Proof. reflexivity. Qed.

Example slugify_latin1 :
  slugify (String (ascii_of_nat 201) "t" +:+ String (ascii_of_nat 160) "X")
    "css"
  = "t-x-css".
Proof. reflexivity. Qed.

Example runs_padded :
  SlugSpec.runs " My  Site "
  = [(true, " "); (false, "My"); (true, "  "); (false, "Site"); (true, " ")].
Proof. reflexivity. Qed.

Example technicalId_spec_padded :
  SlugSpec.technicalId " My  Site " css = "my-site-css".
Proof. reflexivity. Qed.

(** C10.  Every maximal whitespace run becomes a hyphen before the filter
    runs, the leading and the trailing run too: a name that starts with
    whitespace yields an identifier that starts with a hyphen, a name that
    ends with whitespace yields a hyphen right before the hyphen of the
    suffix (" My Site " with class css yields "-my-site--css"), and a name
    made only of code units the filter drops yields the bare "-css" or
    "-js". *)
Theorem slugify_edge_runs :
  (forall name suffix,
     slugify name suffix
     = SlugSpec.concat
         (SlugSpec.slug_of_run <$> SlugSpec.runs (Str.toLowerCase name))
       +:+ "-" +:+ suffix)
  /\ (forall c rest suffix,
       Str.is_space c = true ->
       slugify (String c rest) suffix
       = "-" +:+ slugify (Str.trimStart rest) suffix)
  /\ (forall body c suffix,
       Str.is_space c = true ->
       slugify (body +:+ String c "") suffix
       = Str.strip_non_slug
           (Str.replace_ws (Str.toLowerCase (Str.trimEnd body)))
         +:+ "-" +:+ "-" +:+ suffix)
  /\ slugify " My Site " (mode_str css) = "-my-site--css"
  /\ (forall name m,
       Str.forallb
         (fun c => negb (Str.is_space c)
                   && negb (Str.slug_char (Str.lower_char c))) name = true ->
       slugify name (mode_str m) = "-" +:+ mode_str m).
Proof.
  split; [|split; [|split; [|split]]]; [| | |reflexivity|].
  - intros name suffix. unfold slugify. f_equal. apply strip_replace_runs.
  - intros c rest suffix Hc. unfold slugify, Str.replace_ws. simpl.
    rewrite is_space_lower, Hc. simpl.
    by rewrite replace_ws_in_run, trimStart_lower.
  - intros body c suffix Hc. unfold slugify, Str.replace_ws.
    rewrite toLowerCase_app. simpl.
    rewrite replace_ws_snoc by (by rewrite is_space_lower).
    simpl. rewrite strip_app, trimEnd_lower. simpl.
    by rewrite sapp_assoc.
  - intros name m H. unfold slugify, Str.replace_ws.
    enough (Str.strip_non_slug
              (Str.replace_ws_from false (Str.toLowerCase name)) = "") as ->
      by done.
    induction name as [|c name IH]; simpl; [done |].
    simpl in H. apply andb_prop in H as [[Hs Hk]%andb_prop H].
    apply negb_true_iff in Hs, Hk.
    rewrite is_space_lower, Hs. simpl. rewrite Hk. by apply IH.
Qed.

(** The four cases at " My Site ", "My Site " and "!!". *)
Lemma slugify_edge_runs_witness :
  slugify " My Site" "css" = "-" +:+ slugify "My Site" "css"
  /\ slugify ("My Site" +:+ " ") "js" = "my-site" +:+ "-" +:+ "-" +:+ "js"
  /\ slugify "!!" (mode_str js) = "-" +:+ mode_str js.
Proof.
  destruct slugify_edge_runs as (_ & Hlead & Htrail & _ & Hbare).
  split; [|split].
  - apply (Hlead " "%char "My Site" "css"). reflexivity.
  - apply (Htrail "My Site" " "%char "js"). reflexivity.
  - apply (Hbare "!!" js). reflexivity.
Defined.

(** ** Discovery *)

Section Discovery.

Context (env : Env).

Implicit Types (st : list Resource * nat) (el : Element) (m : Mode).

Lemma forallb_trimStart s :
  Str.forallb Str.is_space (Str.trimStart s) = Str.forallb Str.is_space s.
Proof.
  induction s as [|c s IH]; simpl; [done |].
  destruct (Str.is_space c) eqn:E; simpl; [done | by rewrite E].
Qed.

(** Content is kept by the script rule exactly when it is not blank. *)
Lemma truthy_trim s : Str.truthy (Str.trim s) = negb (blank s).
Proof.
  unfold blank, Str.trim. rewrite <- forallb_trimStart.
  destruct (Str.trimEnd (Str.trimStart s)) eqn:E; simpl.
  - apply trimEnd_empty in E. by rewrite E.
  - destruct (Str.forallb Str.is_space (Str.trimStart s)) eqn:F; [|done].
    apply trimEnd_empty in F. congruence.
Qed.

(** One step of the loop does what the rule says of the element. *)
Lemma visit_verdict m baseUrl st el :
  visit env m baseUrl st el
  = match verdict m el with
    | Skip => Ok st
    | EmitExternal locator => push_external env locator baseUrl st
    | EmitInline tag content => Ok (push_inline tag content st)
    end.
Proof.
  destruct m; simpl; unfold visit_css, visit_js.
  - destruct (String.eqb_spec (tagName el) "link") as [E|E].
    + rewrite bool_decide_eq_true_2 by done.
      by destruct (attr "href" (attribs el)) as [[|c s]|].
    + by rewrite bool_decide_eq_false_2.
  - unfold visit_inline_script. rewrite truthy_trim.
    destruct (attr "src" (attribs el)) as [[|c s]|]; simpl;
      by destruct (blank (html el)).
Qed.

Lemma each_discovered m baseUrl els st st' :
  each (visit env m baseUrl) els st = Ok st' ->
  exists found,
    st'.1 = st.1 ++ found /\ Discovered env baseUrl m st.2 els found.
Proof.
  revert st. induction els as [|el els IH]; intros st H; simpl in H.
  - injection H as <-. exists []. split; [by rewrite app_nil_r | constructor].
  - rewrite visit_verdict in H. destruct (verdict m el) eqn:V.
    + destruct (IH _ H) as (found & E & D). exists found.
      split; [done | by apply disc_skip].
    + unfold push_external, new_URL in H.
      destruct (url_href env locator baseUrl) as [full|] eqn:U; [|done].
      destruct (IH _ H) as (found & E & D). simpl in *.
      exists (External full full :: found).
      split; [by rewrite E, <- app_assoc | by eapply disc_external].
    + destruct (IH _ H) as (found & E & D). simpl in *.
      eexists (Inline _ content :: found).
      split; [by rewrite E, <- app_assoc | by apply disc_inline].
Qed.

Lemma each_total m baseUrl els st :
  (forall el locator,
     el ∈ els -> verdict m el = EmitExternal locator ->
     is_Some (url_href env locator baseUrl)) ->
  exists st', each (visit env m baseUrl) els st = Ok st'.
Proof.
  revert st. induction els as [|el els IH]; intros st H; simpl; [by eauto |].
  rewrite visit_verdict. destruct (verdict m el) eqn:V.
  - apply IH. intros. eapply H; [by right | done].
  - destruct (H el locator) as [full U]; [by left | done |].
    unfold push_external, new_URL. rewrite U.
    apply IH. intros. eapply H; [by right | done].
  - apply IH. intros. eapply H; [by right | done].
Qed.

Lemma parseResources_each markup baseUrl m :
  parseResources env markup baseUrl m
  = match each (visit env m baseUrl) (matching env markup m) ([], 1) with
    | Ok st => Ok st.1
    | Throw e => Throw e
    end.
Proof. done. Qed.

Lemma Discovered_well_labelled baseUrl m n els found :
  Discovered env baseUrl m n els found -> Forall well_labelled found.
Proof. induction 1; repeat constructor; done. Qed.

End Discovery.

(** C3 (as amended).  The discovery walks the matching elements in document
    order and emits, for each, what the rule of the loop says: nothing for a
    stylesheet link whose [href] is missing or empty; for a script whose
    [src] is missing or empty, an inline reference with its content unless
    the content is blank after trimming, and nothing when it is; an inline
    reference for every style element, blank or not.  It fails only where a
    locator cannot be resolved, and with no matching element it returns the
    empty sequence.  The rule is the one of the specification but for a
    script with an empty [src] and content that is not blank. *)
Theorem parseResources_document_order (env : Env) (markup baseUrl : string)
    (m : Mode) :
  (forall found,
     parseResources env markup baseUrl m = Ok found ->
     Discovered env baseUrl m 1 (matching env markup m) found)
  /\ ((forall el locator,
         el ∈ matching env markup m -> verdict m el = EmitExternal locator ->
         is_Some (url_href env locator baseUrl)) ->
      exists found, parseResources env markup baseUrl m = Ok found)
  /\ (matching env markup m = [] -> parseResources env markup baseUrl m = Ok [])
  /\ (forall st el,
        tagName el = "link" -> falsy (attr "href" (attribs el)) = true ->
        visit_css env baseUrl st el = Ok st)
  /\ (forall st el,
        falsy (attr "src" (attribs el)) = true ->
        visit_js env baseUrl st el
        = if Str.truthy (Str.trim (html el))
          then Ok (push_inline "script" (html el) st)
          else Ok st)
  /\ (forall st el,
        tagName el <> "link" ->
        visit_css env baseUrl st el = Ok (push_inline "style" (html el) st))
  /\ (forall el,
        verdict m el = spec_verdict m el
        \/ (m = js
            /\ attr "src" (attribs el) = Some ""
            /\ blank (html el) = false
            /\ spec_verdict m el = Skip
            /\ verdict m el = EmitInline "script" (html el))).
Proof.
  repeat split.
  - intros found H. rewrite parseResources_each in H.
    destruct (each _ _ _) as [st|] eqn:E; [|done]. injection H as <-.
    apply each_discovered in E as (found & -> & D). done.
  - intros H. rewrite parseResources_each.
    destruct (each_total env m baseUrl _ ([], 1) H) as [st ->]. eauto.
  - intros H. rewrite parseResources_each, H. done.
  - intros st el Ht Hf. unfold visit_css. rewrite Ht. simpl.
    destruct (attr "href" (attribs el)) as [[|c s]|]; done.
  - intros st el Hf. unfold visit_js, visit_inline_script.
    by destruct (attr "src" (attribs el)) as [[|c s]|].
  - intros st el Ht. unfold visit_css.
    by destruct (String.eqb_spec (tagName el) "link").
  - intros el. destruct m; [by left |]. unfold verdict, spec_verdict.
    destruct (attr "src" (attribs el)) as [[|c s]|]; [|by left..].
    destruct (blank (html el)) eqn:B; [by left | by right].
Qed.

(** The sample page in style mode: the link without locator is skipped, the
    blank style block is kept; of the scripts, the blank one is skipped and
    the one with an empty [src] is emitted with its content. *)
Lemma parseResources_document_order_witness :
  Discovered Sample.env "http://x/" css 1
    (matching Sample.env "<html>" css)
    [Sample.a; Sample.b; Sample.c; Inline "<style> inline #2" ""]
  /\ parseResources Sample.env_empty "<html>" "http://x/" js = Ok []
  /\ visit_css Sample.env "http://x/" ([], 1) (Sample.link "") = Ok ([], 1)
  /\ visit_js Sample.env "http://x/" ([], 1) (Sample.script None "  ")
     = Ok ([], 1)
  /\ visit_js Sample.env "http://x/" ([], 1) (Sample.script (Some "") "x()")
     = Ok ([Inline "<script> inline #1" "x()"], 2)
  /\ visit_css Sample.env "http://x/" ([], 1) (Sample.style "")
     = Ok ([Inline "<style> inline #1" ""], 2).
Proof.
  split; [|split; [|split; [|split; [|split]]]].
  - apply (proj1 (parseResources_document_order Sample.env "<html>"
                    "http://x/" css)).
    reflexivity.
  - apply (proj1 (proj2 (proj2 (parseResources_document_order
                    Sample.env_empty "<html>" "http://x/" js)))).
    reflexivity.
  - apply (proj1 (proj2 (proj2 (proj2 (parseResources_document_order
                    Sample.env "<html>" "http://x/" css)))));
      reflexivity.
  - exact (proj1 (proj2 (proj2 (proj2 (proj2 (parseResources_document_order
                    Sample.env "<html>" "http://x/" js)))))
             ([], 1) (Sample.script None "  ") eq_refl).
  - exact (proj1 (proj2 (proj2 (proj2 (proj2 (parseResources_document_order
                    Sample.env "<html>" "http://x/" js)))))
             ([], 1) (Sample.script (Some "") "x()") eq_refl).
  - apply (proj1 (proj2 (proj2 (proj2 (proj2 (proj2
             (parseResources_document_order
                Sample.env "<html>" "http://x/" css))))))).
    discriminate.
Defined.

(** C3 as the specification words it fails on a script that has a [src]
    attribute with an empty value and content of its own: the specification
    has it skipped as an external element without locator, the loop emits
    its content as an inline reference. *)
Lemma parseResources_empty_src_counterexample :
  ~ (forall env baseUrl m st el,
       spec_verdict m el = Skip -> visit env m baseUrl st el = Ok st).
Proof.
  intros H.
  specialize (H Sample.env "http://x/" js ([], 1)
                (Sample.script (Some "") "x()") eq_refl).
  vm_compute in H. discriminate H.
Qed.

(** The same on the whole sample page: the last script has an empty [src]
    and is the second inline reference found. *)
Example parseResources_sample_scripts :
  parseResources Sample.env "<html>" "http://x/" js
  = Ok [External "http://x/s.js" "http://x/s.js";
        Inline "<script> inline #1" "alert(1)";
        Inline "<script> inline #2" "x()"]
  /\ spec_verdict js <$> matching Sample.env "<html>" js
     = [EmitExternal "s.js"; Skip; EmitInline "script" "alert(1)"; Skip].
Proof. split; reflexivity. Qed.

(** ** Selection *)

Section Selection.

Lemma to_uint_nonnil n : Nat.to_uint n <> Decimal.Nil.
Proof.
  rewrite <- (DecimalNat.Unsigned.of_to n) at 1.
  rewrite DecimalNat.Unsigned.to_of. unfold Decimal.unorm.
  by destruct (Decimal.nzhead (Nat.to_uint n)).
Qed.

Lemma parse_digits_uint d (a : N) :
  Num.parse_digits (Some a) (NilEmpty.string_of_uint d)
  = Some (N.of_nat (Nat.of_uint_acc d (N.to_nat a))).
Proof.
  revert a. induction d; intros a; simpl; [by rewrite N2Nat.id | ..];
    rewrite IHd; do 3 f_equal; rewrite Nat.tail_mul_spec; lia.
Qed.

(** Reading back the decimal text of a position gives the position. *)
Lemma parseInt_toString n : Num.parseInt (Num.toString n) = Some (Z.of_nat n).
Proof.
  unfold Num.toString.
  rewrite <- (DecimalNat.Unsigned.of_to n) at 2.
  pose proof (to_uint_nonnil n) as Hn. unfold Nat.of_uint.
  destruct (Nat.to_uint n) as [|d|d|d|d|d|d|d|d|d|d]; [done | ..];
    unfold Num.parseInt; simpl; rewrite parse_digits_uint; simpl;
    by rewrite nat_N_Z.
Qed.

Lemma index_toString {A} (arr : list A) i :
  Num.index arr (Num.parseInt (Num.toString i)) = arr !! i.
Proof.
  rewrite parseInt_toString. simpl.
  rewrite (proj2 (Z.leb_le 0 (Z.of_nat i))) by lia. by rewrite Nat2Z.id.
Qed.

(** Positions reported in increasing order pick a subsequence. *)
Lemma lookups_sublist {A} (l : list A) k idx :
  StronglySorted lt idx ->
  Forall (fun i => k <= i < length l) idx ->
  exists sel,
    (fun i => l !! i) <$> idx = Some <$> sel
    /\ sel `sublist_of` drop k l
    /\ Forall2 (fun i r => l !! i = Some r) idx sel.
Proof.
  intros Hs. revert k. induction Hs as [|i idx Hs IH Hi]; intros k Hr.
  - exists []. repeat split; [apply sublist_nil_l | constructor].
  - apply Forall_cons in Hr as [[Hk Hlen] Hr].
    destruct (lookup_lt_is_Some_2 l i Hlen) as [x Hx].
    destruct (IH (S i)) as (sel & E & Hsub & Hall).
    { apply Forall_forall. intros j Hj.
      rewrite Forall_forall in Hi, Hr. specialize (Hi j Hj).
      specialize (Hr j Hj). lia. }
    exists (x :: sel). repeat split.
    + rewrite fmap_cons, E. simpl. by rewrite Hx.
    + replace k with (i - (i - k)) by lia.
      rewrite <- (take_drop (i - k) (drop (i - (i - k)) l)).
      apply sublist_inserts_l. rewrite drop_drop.
      replace (i - (i - k) + (i - k)) with i by lia.
      rewrite (drop_S l x i Hx). by apply sublist_skip.
    + by constructor.
Qed.

End Selection.

(** C5 (as amended).  With auto-approval the gate returns the whole list.
    Otherwise it returns the references in the order in which the service
    reports their positions: the k-th output is the resource at the k-th
    reported position.  When the service reports positions of the list in
    increasing order, as a checkbox over the list does, the output is an
    order-preserving subsequence of the input. *)
Theorem promptSelection_follows_report (env : Env) (resources : list Resource)
    (m : Mode) (w : World) :
  (promptSelection env resources m true w).1 = Ok (Some <$> resources)
  /\ (checkbox env (selection_message m) (selection_choices resources) <> [] ->
      (promptSelection env resources m false w).1
      = Ok ((fun i => Num.index resources (Num.parseInt i))
              <$> checkbox env (selection_message m)
                    (selection_choices resources)))
  /\ (forall idx,
        StronglySorted lt idx ->
        Forall (fun i => i < length resources) idx ->
        checkbox env (selection_message m) (selection_choices resources)
        = Num.toString <$> idx ->
        exists selected,
          (promptSelection env resources m false w).1 = Ok (Some <$> selected)
          /\ selected `sublist_of` resources
          /\ Forall2 (fun i r => resources !! i = Some r) idx selected).
Proof.
  split; [done | split].
  - intros Hne. unfold promptSelection, checkbox_prompt, bind, emit, ret. simpl.
    destruct (checkbox env _ _); done.
  - intros idx Hs Hr E.
    destruct (lookups_sublist resources 0 idx Hs) as (sel & El & Hsub & Hall).
    { eapply Forall_impl; [done |]. simpl. lia. }
    exists sel. split; [|done].
    unfold promptSelection, checkbox_prompt, bind, emit, ret. simpl.
    assert ((fun i => Num.index resources (Num.parseInt i))
              <$> (Num.toString <$> idx) = Some <$> sel) as Hmap.
    { rewrite <- El, <- list_fmap_compose. apply list_fmap_ext.
      intros ? j ?. simpl. apply index_toString. }
    rewrite E, Hmap, length_fmap.
    destruct idx; [by destruct sel | done].
Qed.

(** The sample list with the first and the third position reported in that
    order. *)
Lemma promptSelection_follows_report_witness :
  exists selected,
    (promptSelection Sample.env_sorted [Sample.a; Sample.b; Sample.c] css
       false Sample.world).1 = Ok (Some <$> selected)
    /\ selected `sublist_of` [Sample.a; Sample.b; Sample.c]
    /\ Forall2 (fun i r => [Sample.a; Sample.b; Sample.c] !! i = Some r)
         [0; 2] selected.
Proof.
  apply (proj2 (proj2 (promptSelection_follows_report Sample.env_sorted
                         [Sample.a; Sample.b; Sample.c] css Sample.world))).
  - repeat constructor.
  - repeat constructor.
  - reflexivity.
Defined.

(** C5 as stated fails: the service of the sample reports the third position
    before the first, and the gate returns the third reference before the
    first, which is no subsequence of the list. *)
Lemma promptSelection_reorders_counterexample :
  ~ exists selected,
      (promptSelection Sample.env_ask [Sample.a; Sample.b; Sample.c] css
         false Sample.world).1 = Ok (Some <$> selected)
      /\ selected `sublist_of` [Sample.a; Sample.b; Sample.c].
Proof.
  intros (selected & H & Hsub). vm_compute in H.
  injection H as H. destruct selected as [|x [|y [|z l]]]; try discriminate.
  injection H as <- <-.
  repeat match goal with
         | H : sublist _ _ |- _ => inversion H; clear H; subst
         end.
Qed.

(** ** The manifest *)

Section Manifest.

Implicit Types (s t : string) (p : ascii -> bool).

Lemma forallb_app p s t :
  Str.forallb p (s +:+ t) = Str.forallb p s && Str.forallb p t.
Proof.
  induction s as [|c s IH]; simpl; [done |]. by rewrite IH, andb_assoc.
Qed.

Lemma forallb_digit_uint d :
  Str.forallb Num.is_digit (NilEmpty.string_of_uint d) = true.
Proof. induction d; simpl; done. Qed.

(** A key that denotes an array index is made of digits. *)
Lemma index_of_key_digits k n :
  Obj.index_of_key k = Some n -> Str.forallb Num.is_digit k = true.
Proof.
  unfold Obj.index_of_key. destruct (Num.parse_digits None k) as [n'|]; [|done].
  destruct (n' <? 4294967295)%N; [|done]. simpl.
  destruct (String.eqb_spec (NilEmpty.string_of_uint (N.to_uint n')) k)
    as [<-|]; [|done].
  intros _. apply forallb_digit_uint.
Qed.

(** A technical identifier carries a hyphen: it is no array index and it is
    not the key [assemble]. *)
Lemma technicalId_key t :
  is_technicalId t -> t <> "assemble" /\ Obj.index_of_key t = None.
Proof.
  intros (visibleName & m & ->). unfold slugify. split.
  - intros H.
    assert (Str.forallb (fun c => negb (Ascii.eqb c "-")) "assemble" = true)
      as F by done.
    rewrite <- H, forallb_app in F. simpl in F.
    by rewrite andb_false_r in F.
  - destruct (Obj.index_of_key _) as [n|] eqn:E; [|done].
    apply index_of_key_digits in E. rewrite forallb_app in E. simpl in E.
    by rewrite andb_false_r in E.
Qed.

(** A fresh key that is no index goes after the properties there are. *)
Lemma set_second k v t e :
  t <> k -> Obj.index_of_key t = None ->
  Obj.set t e [(k, v)] = [(k, v); (t, e)].
Proof.
  intros Hne Hidx. unfold Obj.set. cbn [Obj.has].
  rewrite (proj2 (String.eqb_neq k t)) by congruence.
  cbn [orb]. by rewrite Hidx.
Qed.

Lemma alter_second f k v t e :
  t <> k -> Obj.alter f t [(k, v); (t, e)] = [(k, v); (t, f e)].
Proof.
  intros Hne. cbn [Obj.alter].
  rewrite (proj2 (String.eqb_neq k t)) by congruence.
  by rewrite String.eqb_refl.
Qed.

Lemma manifest_shape t visibleName m outputFileName :
  t <> "assemble" -> Obj.index_of_key t = None ->
  manifest t visibleName m outputFileName
  = expected_manifest t visibleName m outputFileName.
Proof.
  intros Hne Hidx. unfold manifest.
  change (Obj.set "assemble" ?x []) with [("assemble", x)].
  rewrite set_second by done. destruct m; [done |].
  cbn [MODES scriptElementAttributes]. by rewrite alter_second.
Qed.

End Manifest.

(** C7.  For a technical identifier, a visible name, a class and a file name
    the manifest is the document with the [assemble] instruction
    [[{from: assets, into: static}]] and one entry under the identifier with
    [name], [type] ([globalCSS] or [globalJS]) and [url]; for the script
    class the entry also carries the four fixed attributes, under
    [scriptElementAttributes], for the style class nothing more. *)
Theorem generateYaml_manifest (env : Env) (technicalName visibleName : string)
    (m : Mode) (outputFileName : string) :
  is_technicalId technicalName ->
  manifest technicalName visibleName m outputFileName
  = expected_manifest technicalName visibleName m outputFileName
  /\ generateYaml env technicalName visibleName m outputFileName
     = yaml_stringify env
         (expected_manifest technicalName visibleName m outputFileName).
Proof.
  intros [Hne Hidx]%technicalId_key. unfold generateYaml.
  by rewrite manifest_shape.
Qed.

(** The manifest of "My Site" for the script class. *)
Lemma generateYaml_manifest_witness :
  manifest "my-site-js" "My Site" js "global.js"
  = expected_manifest "my-site-js" "My Site" js "global.js"
  /\ generateYaml Sample.env "my-site-js" "My Site" js "global.js"
     = "manifest".
Proof.
  apply (generateYaml_manifest Sample.env "my-site-js" "My Site" js "global.js").
  exists "My Site", js. reflexivity.
Defined.

(** A key that is no technical identifier can displace the instruction: the
    computed key [assemble] overwrites it. *)
Example manifest_assemble_key :
  manifest "assemble" "A" css "global.css"
  = YMap [("assemble",
           YMap [("name", YStr "A"); ("type", YStr "globalCSS");
                 ("url", YStr "global.css")])].
Proof. reflexivity. Qed.

(** ** Paths *)

Section Paths.

Implicit Types (p q : Path) (seg : string).

Lemma split_on_none sep s :
  Str.forallb (fun c => negb (Ascii.eqb c sep)) s = true ->
  PathM.split_on sep s = [s].
Proof.
  induction s as [|c s IH]; simpl; [done |].
  intros [Hc Hs]%andb_prop. apply negb_true_iff in Hc.
  by rewrite Hc, (IH Hs).
Qed.

(** Joining a single plain segment appends it. *)
Lemma join_simple p seg :
  PathM.simple seg = true -> PathM.join p seg = p ++ [seg].
Proof.
  unfold PathM.simple, PathM.join, PathM.push.
  intros [Hs Hn]%andb_prop. rewrite split_on_none by done. simpl.
  apply negb_true_iff in Hn.
  apply orb_false_elim in Hn as [[-> ->]%orb_false_elim ->]. done.
Qed.

Lemma OUTPUT_DIR_eq env : OUTPUT_DIR env = dirname env ++ ["output"].
Proof. by apply join_simple. Qed.

Lemma TEMP_DIR_eq env : TEMP_DIR env = dirname env ++ ["output"; "temp"].
Proof.
  unfold TEMP_DIR. rewrite join_simple, OUTPUT_DIR_eq by done.
  by rewrite <- app_assoc.
Qed.

Lemma ASSETS_DIR_eq env :
  ASSETS_DIR env = dirname env ++ ["output"; "temp"; "assets"].
Proof.
  unfold ASSETS_DIR. rewrite join_simple, TEMP_DIR_eq by done.
  by rewrite <- app_assoc.
Qed.

Lemma forallb_impl (P Q : ascii -> bool) s :
  (forall c, P c = true -> Q c = true) ->
  Str.forallb P s = true -> Str.forallb Q s = true.
Proof.
  intros HPQ. induction s as [|c s IH]; simpl; [done |].
  intros [Hc Hs]%andb_prop. by rewrite (HPQ c Hc), (IH Hs).
Qed.

Lemma forallb_strip s :
  Str.forallb Str.slug_char (Str.strip_non_slug s) = true.
Proof.
  induction s as [|c s IH]; simpl; [done |].
  destruct (Str.slug_char c) eqn:E; simpl; [by rewrite E |]; done.
Qed.

Lemma slug_char_not_slash c :
  Str.slug_char c = true -> negb (Ascii.eqb c "/") = true.
Proof. by destruct c as [[] [] [] [] [] [] [] []]. Qed.

(** The archive of a technical identifier is named by one plain segment. *)
Lemma simple_zip_name visibleName m :
  PathM.simple (slugify visibleName (mode_str m) +:+ ".zip") = true.
Proof.
  unfold PathM.simple, slugify. apply andb_true_intro. split.
  - rewrite !forallb_app. apply andb_true_intro. split; [|done].
    apply andb_true_intro. split; [|by destruct m].
    eapply forallb_impl; [apply slug_char_not_slash | apply forallb_strip].
  - apply negb_true_iff.
    set (t := Str.strip_non_slug _ +:+ _).
    assert (4 <= String.length (t +:+ ".zip")) as Hl
      by (rewrite slength_app; simpl; lia).
    repeat (apply orb_false_intro); apply String.eqb_neq; intros E;
      rewrite E in Hl; simpl in Hl; lia.
Qed.

Lemma simple_fileName m : PathM.simple (fileName (MODES m)) = true.
Proof. by destruct m. Qed.

End Paths.

(** ** Packaging *)

Section Packaging.

Context (env : Env).

Implicit Types (p q : Path) (t : gmap Path FileData).

Lemma prune_lookup_outside p q t :
  ~ p `prefix_of` q -> Fs.prune p t !! q = t !! q.
Proof.
  intros H. unfold Fs.prune. rewrite map_lookup_filter.
  destruct (t !! q); simpl; [|done]. by rewrite option_guard_True.
Qed.

Lemma prune_lookup_under p q t :
  p `prefix_of` q -> Fs.prune p t !! q = None.
Proof.
  intros H. unfold Fs.prune. rewrite map_lookup_filter.
  destruct (t !! q); simpl; [|done].
  rewrite option_guard_False; [done |]. unfold Fs.outside. simpl. tauto.
Qed.

Lemma prune_absent p t : Fs.absent p t = true -> Fs.prune p t = t.
Proof.
  unfold Fs.absent, Fs.prune. intros H%bool_decide_eq_true.
  apply map_filter_id. intros q d Hq. exact (H q d Hq).
Qed.

(** Removal with [force] never throws; of a tree that is not there it
    changes no file. *)
Lemma rmSync_force p (w : World) :
  (Fs.rmSync p true w).1 = Ok tt
  /\ (Fs.absent p (files w) = true -> files (Fs.rmSync p true w).2 = files w).
Proof.
  unfold Fs.rmSync. rewrite andb_false_r. simpl. split; [done |].
  apply prune_absent.
Qed.

Lemma zip_name_not_temp technicalName : technicalName +:+ ".zip" <> "temp".
Proof.
  intros E. pose proof (f_equal String.length E) as Hl.
  rewrite slength_app in Hl. simpl in Hl.
  destruct technicalName as [|c s]; [done |]. simpl in Hl. lia.
Qed.

Lemma archive_outside_staging technicalName :
  ~ Layout.staging env `prefix_of` Layout.archive_path env technicalName.
Proof.
  unfold Layout.staging, Layout.archive_path.
  intros [k E]%prefix_app_inv. simpl in E. injection E as E _.
  by apply zip_name_not_temp in E.
Qed.

Lemma content_under_staging outputFileName :
  Layout.staging env `prefix_of` Layout.content_path env outputFileName.
Proof. apply prefix_app. by exists ["assets"; outputFileName]. Qed.

Lemma manifest_under_staging :
  Layout.staging env `prefix_of` Layout.manifest_path env.
Proof. apply prefix_app. by exists ["client-extension.yaml"]. Qed.

Lemma content_not_manifest outputFileName :
  Layout.manifest_path env <> Layout.content_path env outputFileName.
Proof. intros E%app_inv_head. done. Qed.

Lemma entry_name_content outputFileName :
  Zip.entry_name "assets" (Layout.content_path env outputFileName)
  = "assets/" +:+ outputFileName.
Proof.
  unfold Zip.entry_name, PathM.basename, Layout.content_path.
  change (dirname env ++ ["output"; "temp"; "assets"; outputFileName])
    with (dirname env ++ ["output"; "temp"; "assets"] ++ [outputFileName]).
  by rewrite app_assoc, last_last.
Qed.

Lemma entry_name_manifest :
  Zip.entry_name "" (Layout.manifest_path env) = "client-extension.yaml".
Proof.
  unfold Zip.entry_name, PathM.basename, Layout.manifest_path.
  change (dirname env ++ ["output"; "temp"; "client-extension.yaml"])
    with (dirname env ++ ["output"; "temp"] ++ ["client-extension.yaml"]).
  by rewrite app_assoc, last_last.
Qed.

(** The run of [saveFiles], event by event. *)
Lemma saveFiles_run outputFileName content manifestDoc technicalName
    noZipFlag (w : World) :
  PathM.simple outputFileName = true ->
  PathM.simple (technicalName +:+ ".zip") = true ->
  saveFiles env outputFileName content manifestDoc technicalName noZipFlag w
  = (Ok tt,
     if noZipFlag then
       {| files :=
            Layout.staged env outputFileName content manifestDoc (files w);
          trace :=
            trace w
            ++ [Mkdir (dirname env ++ ["output"; "temp"; "assets"]);
                WriteFile (Layout.content_path env outputFileName)
                  (Text content);
                WriteFile (Layout.manifest_path env) (Text manifestDoc);
                Console log (MsgSavedWithoutZip (Layout.staging env));
                Console log MsgOverwriteNote] |}
     else
       {| files :=
            Fs.prune (Layout.staging env)
              (<[Layout.archive_path env technicalName :=
                   Layout.archive outputFileName content manifestDoc]>
                 (Layout.staged env outputFileName content manifestDoc
                    (files w)));
          trace :=
            trace w
            ++ [Mkdir (dirname env ++ ["output"; "temp"; "assets"]);
                WriteFile (Layout.content_path env outputFileName)
                  (Text content);
                WriteFile (Layout.manifest_path env) (Text manifestDoc);
                WriteFile (Layout.archive_path env technicalName)
                  (Layout.archive outputFileName content manifestDoc);
                Console log
                  (MsgZipCreated (Layout.archive_path env technicalName));
                Remove (Layout.staging env)] |}).
Proof.
  intros Hf Hz. unfold saveFiles.
  rewrite !join_simple by done.
  rewrite ASSETS_DIR_eq, TEMP_DIR_eq, OUTPUT_DIR_eq, <- !app_assoc. simpl.
  fold (Layout.content_path env outputFileName) (Layout.manifest_path env)
    (Layout.archive_path env technicalName) (Layout.staging env).
  unfold bind, Fs.mkdirSync, Fs.writeFileSync, Fs.writeData, Zip.addLocalFile,
    Zip.writeZip, bind, Fs.readData, Fs.writeData, ret, console, emit,
    Fs.rmSync.
  destruct noZipFlag; simpl.
  - by rewrite <- !app_assoc.
  - rewrite lookup_insert_ne by apply content_not_manifest.
    rewrite lookup_insert_eq. simpl. rewrite lookup_insert_eq. simpl.
    rewrite andb_false_r, <- !app_assoc.
    by rewrite entry_name_content, entry_name_manifest.
Qed.

Lemma saveFiles_archived outputFileName content manifestDoc technicalName
    (w : World) :
  PathM.simple outputFileName = true ->
  PathM.simple (technicalName +:+ ".zip") = true ->
  let run :=
    saveFiles env outputFileName content manifestDoc technicalName false w in
  run.1 = Ok tt
  /\ files run.2 !! Layout.archive_path env technicalName
     = Some (Layout.archive outputFileName content manifestDoc).
Proof.
  intros Hf Hz. cbn zeta. rewrite saveFiles_run by done. simpl.
  split; [done |].
  rewrite prune_lookup_outside by apply archive_outside_staging.
  by rewrite lookup_insert_eq.
Qed.

Lemma saveFiles_kept outputFileName content manifestDoc technicalName
    (w : World) :
  PathM.simple outputFileName = true ->
  PathM.simple (technicalName +:+ ".zip") = true ->
  let run :=
    saveFiles env outputFileName content manifestDoc technicalName true w in
  run.1 = Ok tt
  /\ files run.2 !! Layout.content_path env outputFileName
     = Some (Text content)
  /\ files run.2 !! Layout.manifest_path env = Some (Text manifestDoc).
Proof.
  intros Hf Hz. cbn zeta. rewrite saveFiles_run by done. simpl.
  unfold Layout.staged. split; [done |]. split.
  - rewrite lookup_insert_ne by apply content_not_manifest.
    by rewrite lookup_insert_eq.
  - by rewrite lookup_insert_eq.
Qed.

End Packaging.

(** C8.  The packager writes the merged content under the staging assets
    directory and the manifest under the staging root.  With archiving it
    then writes [<technicalId>.zip] in the output root, holding the content
    file under [assets] and the manifest at the root, and removes the whole
    staging tree, a removal that does not fail on a tree that is not there;
    all other files stay as they were.  Without archiving the staging files
    stay, no archive is written, and the note on the shared staging tree is
    printed. *)
Theorem saveFiles_layout (env : Env)
    (outputFileName content manifestDoc technicalName : string)
    (noZipFlag : bool) (w : World) :
  PathM.simple outputFileName = true ->
  PathM.simple (technicalName +:+ ".zip") = true ->
  let run :=
    saveFiles env outputFileName content manifestDoc technicalName noZipFlag w
  in
  let archive_path := Layout.archive_path env technicalName in
  let writes :=
    [Mkdir (dirname env ++ ["output"; "temp"; "assets"]);
     WriteFile (Layout.content_path env outputFileName) (Text content);
     WriteFile (Layout.manifest_path env) (Text manifestDoc)] in
  run.1 = Ok tt
  /\ (noZipFlag = false ->
      trace run.2
      = trace w ++ writes
        ++ [WriteFile archive_path
              (Layout.archive outputFileName content manifestDoc);
            Console log (MsgZipCreated archive_path);
            Remove (Layout.staging env)]
      /\ files run.2 !! archive_path
         = Some (Layout.archive outputFileName content manifestDoc)
      /\ (forall q, Layout.staging env `prefix_of` q -> files run.2 !! q = None)
      /\ (forall q,
            ~ Layout.staging env `prefix_of` q -> q <> archive_path ->
            files run.2 !! q = files w !! q))
  /\ (noZipFlag = true ->
      trace run.2
      = trace w ++ writes
        ++ [Console log (MsgSavedWithoutZip (Layout.staging env));
            Console log MsgOverwriteNote]
      /\ files run.2 !! Layout.content_path env outputFileName
         = Some (Text content)
      /\ files run.2 !! Layout.manifest_path env = Some (Text manifestDoc)
      /\ (forall q,
            q <> Layout.content_path env outputFileName ->
            q <> Layout.manifest_path env ->
            files run.2 !! q = files w !! q))
  /\ (forall p w0,
        (Fs.rmSync p true w0).1 = Ok tt
        /\ (Fs.absent p (files w0) = true ->
            files (Fs.rmSync p true w0).2 = files w0)).
Proof.
  intros Hf Hz run archive_path writes. subst run.
  rewrite saveFiles_run by done. simpl.
  split; [done |]. split; [|split]; [| |apply rmSync_force].
  - intros ->. simpl. repeat split.
    + rewrite prune_lookup_outside by apply archive_outside_staging.
      by rewrite lookup_insert_eq.
    + intros q Hq. by apply prune_lookup_under.
    + intros q Hq Hne. rewrite prune_lookup_outside by done.
      unfold Layout.staged. rewrite !lookup_insert_ne; [done | ..].
      * intros <-. apply Hq, content_under_staging.
      * intros <-. apply Hq, manifest_under_staging.
      * done.
  - intros ->. simpl. unfold Layout.staged. repeat split.
    + rewrite lookup_insert_ne by apply content_not_manifest.
      by rewrite lookup_insert_eq.
    + by rewrite lookup_insert_eq.
    + intros q H1 H2. by rewrite !lookup_insert_ne.
Qed.

(** The style bundle of the sample, archived, then kept in staging. *)
Lemma saveFiles_layout_witness :
  files (saveFiles Sample.env "global.css" "a{}" "manifest" "my-site-css"
           false Sample.world).2
  !! ["app"; "output"; "my-site-css.zip"]
  = Some (Archive [("assets/global.css", Text "a{}");
                   ("client-extension.yaml", Text "manifest")])
  /\ files (saveFiles Sample.env "global.css" "a{}" "manifest" "my-site-css"
              true Sample.world).2
     !! ["app"; "output"; "temp"; "assets"; "global.css"]
     = Some (Text "a{}").
Proof.
  split.
  - apply (saveFiles_layout Sample.env "global.css" "a{}" "manifest"
             "my-site-css" false Sample.world); reflexivity.
  - apply (saveFiles_layout Sample.env "global.css" "a{}" "manifest"
             "my-site-css" true Sample.world); reflexivity.
Defined.

(** ** Resolution and merge *)

Section Resolution.

Context (env : Env).

Implicit Types (refs : list Resource) (slots : list Slot) (w : World).

Lemma logged_nil w : logged w [] = w.
Proof. destruct w. unfold logged. simpl. by rewrite app_nil_r. Qed.

Lemma logged_logged w evs evs' :
  logged (logged w evs) evs' = logged w (evs ++ evs').
Proof. unfold logged. simpl. by rewrite app_assoc. Qed.

(** The map starts every task, in the order of the list. *)
Lemma start_tasks refs w :
  mapM start_task (Some <$> refs) w
  = (Ok (initial_slot <$> refs), logged w (start_event <$> refs)).
Proof.
  revert w. induction refs as [|r refs IH]; intros w.
  - simpl. unfold ret. by rewrite logged_nil.
  - rewrite !fmap_cons. cbn [mapM]. unfold bind at 1.
    assert (start_task (Some r) w
            = (Ok (initial_slot r), logged w [start_event r])) as ->
      by (by destruct r).
    unfold bind at 1. rewrite IH. unfold ret. by rewrite logged_logged.
Qed.

Lemma first_rejection_initial refs :
  first_rejection (initial_slot <$> refs) = None.
Proof. induction refs as [|[] refs IH]; simpl; done. Qed.

Lemma settle_task_run url w :
  settle_task env url w
  = (Ok (Settled (resolved_text env (External url url))),
     logged w [settle_event env url]).
Proof.
  unfold settle_task, settle_event, resolved_text.
  by destruct (axios_get env url).
Qed.

Lemma pending_from_elem k slots i :
  i ∈ pending_from k slots
  <-> exists j url, i = k + j /\ slots !! j = Some (Pending url).
Proof.
  revert k. induction slots as [|s slots IH]; intros k; simpl.
  - split; [by intros ?%elem_of_nil | by intros (j & url & _ & ?)].
  - assert (i ∈ pending_from (S k) slots
            <-> exists j url, i = k + S j /\ slots !! j = Some (Pending url))
      as IH'.
    { rewrite IH. by setoid_rewrite Nat.add_succ_r. }
    destruct s; rewrite ?elem_of_cons, IH'; split.
    + intros [->|(j & u & -> & H)]; [exists 0, url | exists (S j), u];
        by rewrite ?Nat.add_0_r.
    + intros ([|j] & u & -> & H); [left; lia | right; eauto].
    + intros (j & u & -> & H). by exists (S j), u.
    + intros ([|j] & u & -> & H); [done | eauto].
    + intros (j & u & -> & H). by exists (S j), u.
    + intros ([|j] & u & -> & H); [done | eauto].
Qed.

(** Settling one download leaves one pending download less. *)
Lemma pending_from_settle k slots j url text :
  slots !! j = Some (Pending url) ->
  S (length (pending_from k (<[j := Settled text]> slots)))
  = length (pending_from k slots).
Proof.
  revert k j. induction slots as [|s slots IH]; intros k j H; [done |].
  destruct j as [|j]; simpl in *.
  - by injection H as ->.
  - destruct s; simpl; rewrite <- (IH (S k) j H); done.
Qed.

Lemma slots_for_settle refs slots i url :
  slots_for env refs slots ->
  slots !! i = Some (Pending url) ->
  slots_for env refs
    (<[i := Settled (resolved_text env (External url url))]> slots).
Proof.
  intros HF Hi.
  destruct (Forall2_lookup_r _ _ _ _ _ HF Hi) as (r & Hr & Hrs).
  rewrite <- (list_insert_id refs i r Hr).
  apply Forall2_insert; [done |]. left.
  destruct Hrs as [E|E]; [done |]. destruct r; [|done].
  simpl in E. by injection E as ->.
Qed.

(** Once nothing is pending, every slot holds the text of its reference. *)
Lemma slots_for_settled refs slots :
  slots_for env refs slots -> pending_indices slots = [] ->
  slots = (fun r => Settled (resolved_text env r)) <$> refs.
Proof.
  unfold pending_indices. generalize 0 as k.
  intros k HF. revert k. induction HF as [|r s refs slots H HF IH];
    intros k Hp; [done |].
  simpl. destruct H as [-> | ->].
  - simpl in Hp. by rewrite (IH _ Hp).
  - destruct r; simpl in *; [done |]. by rewrite (IH _ Hp).
Qed.

(** The loop settles every pending download, whatever the picks, and each
    prints its event. *)
Lemma settle_loop_run refs fuel picks slots w :
  slots_for env refs slots ->
  length (pending_indices slots) <= fuel ->
  exists slots' evs,
    settle_loop env fuel picks slots w = (Ok slots', logged w evs)
    /\ slots_for env refs slots'
    /\ pending_indices slots' = []
    /\ (forall j url,
          slots !! j = Some (Pending url) -> settle_event env url ∈ evs).
Proof.
  revert picks slots w.
  induction fuel as [|fuel IH]; intros picks slots w HF Hlen.
  - exists slots, []. simpl. unfold ret. rewrite logged_nil.
    assert (pending_indices slots = []) as Hp
      by (destruct (pending_indices slots); [done | simpl in Hlen; lia]).
    repeat split; [done | done |]. intros j url Hj.
    assert (0 + j ∈ pending_indices slots) as Hin
      by (apply pending_from_elem; eauto).
    rewrite Hp in Hin. by apply elem_of_nil in Hin.
  - cbn [settle_loop].
    destruct (pending_indices slots) as [|i0 rest] eqn:Hp.
    + exists slots, []. unfold ret. rewrite logged_nil.
      repeat split; [done | done |]. intros j url Hj.
      assert (0 + j ∈ pending_indices slots) as Hin
        by (apply pending_from_elem; eauto).
      rewrite Hp in Hin. by apply elem_of_nil in Hin.
    + set (i := nth _ (i0 :: rest) i0).
      assert (i ∈ pending_indices slots) as Hin.
      { rewrite Hp. apply list_elem_of_In, nth_In.
        change (length (i0 :: rest)) with (S (length rest)).
        apply Nat.mod_upper_bound. lia. }
      apply pending_from_elem in Hin as (j & url & Hij & Hj).
      simpl in Hij. subst j. rewrite Hj.
      unfold bind at 1. rewrite settle_task_run.
      destruct (IH (tl picks)
                  (<[i := Settled (resolved_text env (External url url))]>
                     slots)
                  (logged w [settle_event env url]))
        as (slots' & evs & Hrun & HF' & Hp' & Hev).
      { by apply slots_for_settle. }
      { pose proof (pending_from_settle 0 slots i url
                      (resolved_text env (External url url)) Hj) as Hs.
        unfold pending_indices in *. rewrite Hp in Hs. simpl in *. lia. }
      exists slots', (settle_event env url :: evs).
      rewrite Hrun, logged_logged. repeat split; [done | done |].
      intros j url' Hj'. destruct (decide (j = i)) as [->|Hne].
      * rewrite Hj in Hj'. injection Hj' as <-. by left.
      * right. apply (Hev j). by rewrite list_lookup_insert_ne.
Qed.

Lemma collect_settled (f : Resource -> string) refs :
  collect ((fun r => Settled (f r)) <$> refs) = Some (f <$> refs).
Proof.
  induction refs as [|r refs IH]; [done |].
  rewrite !fmap_cons. cbn [collect]. by rewrite IH.
Qed.

Lemma pending_bound slots :
  length (pending_indices slots) <= length slots.
Proof.
  unfold pending_indices. generalize 0 as k.
  induction slots as [|[] slots IH]; intros k; simpl; [lia | ..];
    specialize (IH (S k)); lia.
Qed.

(** The run of [downloadResources] on references that are all there. *)
Lemma downloadResources_run refs w :
  exists evs,
    downloadResources env (Some <$> refs) w
    = (Ok (join (nl +:+ nl) (resolved_text env <$> refs)),
       logged w ((start_event <$> refs) ++ evs))
    /\ (forall lbl url,
          External lbl url ∈ refs -> settle_event env url ∈ evs).
Proof.
  unfold downloadResources. unfold bind at 1. rewrite start_tasks.
  rewrite first_rejection_initial.
  destruct (settle_loop_run refs (length (initial_slot <$> refs))
              (settle_picks env) (initial_slot <$> refs)
              (logged w (start_event <$> refs)))
    as (slots' & evs & Hrun & HF & Hp & Hev).
  { unfold slots_for. apply Forall2_fmap_r, Forall_Forall2_diag.
    apply Forall_forall. by right. }
  { apply pending_bound. }
  exists evs. unfold bind. rewrite Hrun.
  rewrite (slots_for_settled refs slots' HF Hp), collect_settled.
  unfold ret. rewrite logged_logged. split; [done |].
  intros lbl url [j Hj]%list_elem_of_lookup. apply (Hev j).
  by rewrite list_lookup_fmap, Hj.
Qed.

(** Where the label of every external reference is its locator, the texts
    are those of the specification. *)
Lemma resolved_text_merged refs :
  Forall well_labelled refs ->
  join (nl +:+ nl) (resolved_text env <$> refs) = merged env refs.
Proof.
  intros H. unfold merged. f_equal. apply list_fmap_ext.
  intros i r Hr. rewrite Forall_forall in H.
  specialize (H r (list_elem_of_lookup_2 _ _ _ Hr)).
  destruct r as [lbl url|lbl content]; simpl in *; [subst lbl |]; [|done].
  by destruct (axios_get env url).
Qed.

End Resolution.

(** ** The run of one resource class *)

Section Run.

Context (env : Env).

Implicit Types (w : World) (m : Mode).

Lemma promptSelection_run resources m flag w :
  promptSelection env resources m flag w
  = (Ok (approved env resources m flag),
     logged w (selection_events env resources m flag)).
Proof.
  unfold promptSelection, approved, selection_events, checkbox_prompt, bind,
    console, emit, ret, logged.
  destruct flag; [done |]. simpl.
  destruct (length (checkbox env _ _) =? 0)%nat; simpl;
    by rewrite <- ?app_assoc.
Qed.

Lemma ask_name_run m shared w :
  ask_name env m shared w
  = (named env m shared, logged w (name_events m shared)).
Proof.
  unfold ask_name, named, name_events, input, bind, emit, ret, throw, logged.
  destruct shared as [[|c given]|]; simpl.
  - by destruct (List.find _ _).
  - destruct w. simpl. by rewrite app_nil_r.
  - by destruct (List.find _ _).
Qed.

Lemma fetchPage_run url w :
  fetchPage env url w
  = (match axios_get env url with
     | inl data => Ok data
     | inr msg => Throw (Error ("Failed to fetch page: " +:+ msg))
     end,
     logged w [HttpGet url]).
Proof.
  unfold fetchPage, try_catch, axios, bind, emit, ret, throw, logged.
  by destruct (axios_get env url).
Qed.

(** The stages of [runOnce] after a page that could be fetched and parsed. *)
Lemma runOnce_run url m shared w markup found :
  axios_get env url = inl markup ->
  parseResources env markup url m = Ok found ->
  runOnce env url m shared w
  = let w1 := logged w [Console log (MsgFetching url m); HttpGet url] in
    if Nat.eqb (length found) 0
    then (Ok tt, logged w1 [Console log (MsgNoResources m)])
    else
      let selected := approved env found m (includeAll env) in
      let w2 := logged w1 (selection_events env found m (includeAll env)) in
      if Nat.eqb (length selected) 0 then (Ok tt, w2)
      else
        let w3 := logged w2 (name_events m shared) in
        match named env m shared with
        | Throw e => (Throw e, w3)
        | Ok visibleName =>
            (combined <- downloadResources env selected ;;
             saveFiles env (fileName (MODES m)) combined
               (generateYaml env (slugify visibleName (mode_str m))
                  visibleName m (fileName (MODES m)))
               (slugify visibleName (mode_str m)) (noZip env))
              (logged w3 [Console log (MsgSelectedBlocks m (length selected))])
        end.
Proof.
  intros Hpage Hparse. unfold runOnce.
  unfold bind at 1. unfold console at 1, emit at 1.
  unfold bind at 1. rewrite fetchPage_run, Hpage.
  unfold bind at 1, lift at 1. rewrite Hparse.
  change {| files := files w;
            trace := trace w ++ [Console log (MsgFetching url m)] |}
    with (logged w [Console log (MsgFetching url m)]).
  rewrite logged_logged. simpl app.
  destruct (length found =? 0)%nat; [done |].
  unfold bind at 1. rewrite promptSelection_run.
  cbn zeta.
  destruct (length (approved env found m (includeAll env)) =? 0)%nat;
    [done |].
  unfold bind at 1. rewrite ask_name_run.
  destruct (named env m shared) as [visibleName|e]; [|done].
  unfold bind at 1, console at 1, emit at 1. done.
Qed.

(** A run whose page cannot be fetched stops there: one request, the error
    of the fetcher, no file touched. *)
Lemma runOnce_fetch_failure url m shared w msg :
  axios_get env url = inr msg ->
  runOnce env url m shared w
  = (Throw (Error ("Failed to fetch page: " +:+ msg)),
     logged w [Console log (MsgFetching url m); HttpGet url]).
Proof.
  intros Hpage. unfold runOnce.
  unfold bind at 1. unfold console at 1, emit at 1.
  unfold bind at 1. rewrite fetchPage_run, Hpage.
  unfold logged. simpl. by rewrite <- app_assoc.
Qed.

(** From an approved list on, a run goes through to its files. *)
Lemma runOnce_packaged url m shared w markup found refs visibleName :
  axios_get env url = inl markup ->
  parseResources env markup url m = Ok found ->
  found <> [] ->
  approved env found m (includeAll env) = Some <$> refs ->
  refs <> [] ->
  named env m shared = Ok visibleName ->
  exists evs,
    runOnce env url m shared w
    = saveFiles env (fileName (MODES m))
        (join (nl +:+ nl) (resolved_text env <$> refs))
        (generateYaml env (slugify visibleName (mode_str m)) visibleName m
           (fileName (MODES m)))
        (slugify visibleName (mode_str m)) (noZip env) (logged w evs).
Proof.
  intros Hpage Hparse Hfound Happ Hrefs Hname.
  rewrite (runOnce_run url m shared w markup found Hpage Hparse).
  cbn zeta. rewrite Happ, Hname.
  destruct found; [done |]. destruct refs; [done |].
  cbn [length Nat.eqb fmap list_fmap].
  rewrite <- fmap_cons.
  match goal with
  | |- context [bind _ _ ?w0] =>
      destruct (downloadResources_run env (r0 :: refs) w0) as (evs & Hrun & _)
  end.
  unfold bind at 1. rewrite Hrun. rewrite !logged_logged. eauto.
Qed.

End Run.

(** The join of the script is the separation of the specification. *)
Lemma join_separated (l : list string) :
  join (nl +:+ nl) l = MergeSpec.separated l.
Proof.
  destruct l as [|x l]; [done |]. cbn [MergeSpec.separated].
  revert x. induction l as [|y l IH]; intros x.
  - simpl. by rewrite sapp_nil_r.
  - change (join (nl +:+ nl) (x :: y :: l))
      with (x +:+ (nl +:+ nl) +:+ join (nl +:+ nl) (y :: l)).
    rewrite IH, fmap_cons. cbn [SlugSpec.concat]. reflexivity.
Qed.

(** The text of a reference is the entry of the specification, where the
    label of an external reference is its locator. *)
Lemma resolved_text_entry (env : Env) (r : Resource) :
  well_labelled r ->
  resolved_text env r = MergeSpec.entry (label r) (resolved_body env r).
Proof.
  destruct r as [lbl url|lbl content]; simpl; [|done].
  intros ->. by destruct (axios_get env url).
Qed.

(** C2.  For N approved references, as the discovery builds them, the
    resolution and the merge give exactly N entries in the order of the
    input, whatever the order in which the downloads settle: the entry of a
    reference that succeeded is the comment line [/* label */], a line feed
    and its body, the entry of a failed download is the empty text, and the
    result is the first entry followed by every further entry after two line
    feeds (a blank line). *)
Theorem downloadResources_order_stable (env : Env) (picks : list nat)
    (refs : list Resource) (w : World) :
  Forall well_labelled refs ->
  let run := downloadResources (with_picks env picks) (Some <$> refs) w in
  run.1 = Ok (MergeSpec.separated (MergeSpec.entries env refs))
  /\ length (MergeSpec.entries env refs) = length refs
  /\ (forall i r,
        refs !! i = Some r ->
        MergeSpec.entries env refs !! i
        = Some match resolved_body env r with
               | Some body =>
                   "/* " +:+ label r +:+ " */" +:+ String "010"%char body
               | None => EmptyString
               end)
  /\ (forall e rest,
        MergeSpec.separated (e :: rest)
        = e +:+ SlugSpec.concat
                  ((fun x => String "010"%char (String "010"%char x))
                     <$> rest)).
Proof.
  intros Hall run. split; [|split; [|split]].
  - subst run.
    destruct (downloadResources_run (with_picks env picks) refs w)
      as (evs & -> & _).
    cbn [fst]. rewrite join_separated. do 2 f_equal.
    unfold MergeSpec.entries. apply list_fmap_ext. intros i r Hr.
    rewrite Forall_forall in Hall.
    apply (resolved_text_entry env), Hall.
    by apply list_elem_of_lookup_2 in Hr.
  - unfold MergeSpec.entries. by rewrite length_fmap.
  - intros i r Hr. unfold MergeSpec.entries.
    rewrite list_lookup_fmap, Hr. cbn [fmap option_fmap option_map].
    by destruct (resolved_body env r).
  - intros e rest. reflexivity.
Qed.

(** The three references of the sample, the failed download last, under a
    settling order of its own: the text of the result, character by
    character. *)
Lemma downloadResources_order_stable_witness :
  (downloadResources (with_picks Sample.env [5; 0])
     (Some <$> [Sample.a; Sample.b; Sample.c]) Sample.world).1
  = Ok ("/* http://x/a.css */" +:+ String "010"%char "a{}"
        +:+ String "010"%char (String "010"%char "/* <style> inline #1 */")
        +:+ String "010"%char "body{color:red}"
        +:+ String "010"%char (String "010"%char "")).
Proof.
  pose proof (downloadResources_order_stable Sample.env [5; 0]
                [Sample.a; Sample.b; Sample.c] Sample.world
                ltac:(repeat constructor))
    as (Hrun & _).
  exact Hrun.
Defined.

(** The settling order is seen in what is printed, not in what is merged. *)
Example settle_order_is_seen :
  trace (downloadResources (with_picks Sample.env [0])
           (Some <$> [Sample.a; Sample.c]) Sample.world).2
  <> trace (downloadResources (with_picks Sample.env [1])
              (Some <$> [Sample.a; Sample.c]) Sample.world).2
  /\ (downloadResources (with_picks Sample.env [0])
        (Some <$> [Sample.a; Sample.c]) Sample.world).1
     = (downloadResources (with_picks Sample.env [1])
          (Some <$> [Sample.a; Sample.c]) Sample.world).1.
Proof. split; [intros H; vm_compute in H; discriminate | reflexivity]. Qed.

(** The entry of a failed download is empty; the join still separates it
    from its neighbours. *)
Example failed_entry_keeps_separator :
  (downloadResources Sample.env (Some <$> [Sample.c; Sample.b]) Sample.world).1
  = Ok (nl +:+ nl +:+ "/* <style> inline #1 */" +:+ nl +:+ "body{color:red}").
Proof. reflexivity. Qed.

(** A position off the list makes the gate return [undefined], on which the
    resolution throws before any download settles. *)
Example undefined_selection_throws :
  (downloadResources Sample.env [Some Sample.a; None] Sample.world).1
  = Throw (TypeError "Cannot read properties of undefined (reading 'type')").
Proof. reflexivity. Qed.

(** C4.  A download that fails does not fail the resolution: the call
    returns, the failed reference resolves to the empty text, its warning is
    printed, no file is touched, and the run goes on to write its files. *)
Theorem downloadResources_tolerates_failure (env : Env) (refs : list Resource)
    (w : World) (lbl url msg : string) :
  External lbl url ∈ refs ->
  axios_get env url = inr msg ->
  let run := downloadResources env (Some <$> refs) w in
  run.1 = Ok (join (nl +:+ nl) (resolved_text env <$> refs))
  /\ resolved_body env (External lbl url) = None
  /\ resolved_text env (External lbl url) = ""
  /\ Console warn (MsgFailedToLoad url msg) ∈ trace run.2
  /\ files run.2 = files w
  /\ (forall pageUrl m shared markup found visibleName w0,
        axios_get env pageUrl = inl markup ->
        parseResources env markup pageUrl m = Ok found ->
        found <> [] ->
        approved env found m (includeAll env) = Some <$> refs ->
        named env m shared = Ok visibleName ->
        let whole := runOnce env pageUrl m shared w0 in
        let technicalName := slugify visibleName (mode_str m) in
        let combined := join (nl +:+ nl) (resolved_text env <$> refs) in
        whole.1 = Ok tt
        /\ (noZip env = false ->
            files whole.2 !! Layout.archive_path env technicalName
            = Some (Layout.archive (fileName (MODES m)) combined
                      (generateYaml env technicalName visibleName m
                         (fileName (MODES m)))))
        /\ (noZip env = true ->
            files whole.2 !! Layout.content_path env (fileName (MODES m))
            = Some (Text combined))).
Proof.
  intros Hin Hfail run. subst run.
  destruct (downloadResources_run env refs w) as (evs & -> & Hev).
  simpl. rewrite Hfail.
  split; [done |]. split; [done |]. split; [done |]. split; [|split; [done |]].
  - specialize (Hev lbl url Hin). unfold settle_event in Hev.
    rewrite Hfail in Hev. rewrite !elem_of_app. auto.
  - intros pageUrl m shared markup found visibleName w0
      Hpage Hparse Hfound Happ Hname. cbn zeta.
    set (technicalName := slugify visibleName (mode_str m)).
    set (combined := join (nl +:+ nl) (resolved_text env <$> refs)).
    assert (refs <> []) as Hrefs
      by (intros ->; by apply elem_of_nil in Hin).
    destruct (runOnce_packaged env pageUrl m shared w0 markup found refs
                visibleName Hpage Hparse Hfound Happ Hrefs Hname)
      as (evs' & Hwhole).
    rewrite Hwhole.
    destruct (noZip env).
    + destruct (saveFiles_kept env (fileName (MODES m)) combined
                  (generateYaml env technicalName visibleName m
                     (fileName (MODES m)))
                  technicalName (logged w0 evs')
                  (simple_fileName m) (simple_zip_name visibleName m))
        as (Hok & Hkeep & _).
      split; [done |]. split; [done |]. done.
    + destruct (saveFiles_archived env (fileName (MODES m)) combined
                  (generateYaml env technicalName visibleName m
                     (fileName (MODES m)))
                  technicalName (logged w0 evs')
                  (simple_fileName m) (simple_zip_name visibleName m))
        as (Hok & Hzip).
      split; [done |]. split; [done |]. done.
Qed.

(** The style run of the sample: the second stylesheet answers 404, the
    archive is written all the same. *)
Lemma downloadResources_tolerates_failure_witness :
  Console warn
    (MsgFailedToLoad "http://x/b.css" "Request failed with status code 404")
  ∈ trace (downloadResources Sample.env
             (Some <$> [Sample.a; Sample.b; Sample.c;
                        Inline "<style> inline #2" ""])
             Sample.world).2
  /\ (runOnce Sample.env "http://x/" css (Some "My Site") Sample.world).1
     = Ok tt.
Proof.
  pose proof (downloadResources_tolerates_failure Sample.env
                [Sample.a; Sample.b; Sample.c; Inline "<style> inline #2" ""]
                Sample.world "http://x/b.css" "http://x/b.css"
                "Request failed with status code 404")
    as H.
  destruct H as (_ & _ & _ & Hwarn & _ & Hrun).
  - right; right; left.
  - reflexivity.
  - split; [exact Hwarn |].
    apply (Hrun "http://x/" css (Some "My Site") "<html>"
             [Sample.a; Sample.b; Sample.c; Inline "<style> inline #2" ""]
             "My Site" Sample.world); (reflexivity || discriminate).
Defined.

(** ** Early ends *)

Section EarlyEnds.

Context (env : Env).

Lemma approved_empty found m :
  found <> [] -> approved env found m (includeAll env) = [] ->
  includeAll env = false
  /\ checkbox env (selection_message m) (selection_choices found) = [].
Proof.
  unfold approved. intros Hfound.
  destruct (includeAll env); [by destruct found |].
  destruct (checkbox env _ _) as [|c cs]; [done |]. simpl. done.
Qed.

Lemma main_fetch_failure url mode shared w msg :
  axios_get env url = inr msg ->
  falsy mode = true \/ mode = Some "css" \/ mode = Some "js" ->
  exists m,
    main env url mode shared w
    = (Throw (Error ("Failed to fetch page: " +:+ msg)),
       logged w [Console log (MsgFetching url m); HttpGet url]).
Proof.
  intros Hpage Hmode. unfold main.
  destruct (falsy mode) eqn:Hf.
  - exists css. unfold bind.
    by rewrite (runOnce_fetch_failure env url css shared w msg Hpage).
  - destruct Hmode as [?|[-> | ->]]; [done | exists css | exists js];
      simpl; by apply runOnce_fetch_failure.
Qed.

End EarlyEnds.

(** C6.  When nothing is discovered the run reports it and ends there: the
    selection service is not asked, nothing is written, the run returns
    normally; the gate is reached only with a list that is not empty.  When
    the operator approves nothing the run ends after the report of the gate,
    again with nothing written and no error.  Under auto-approval the gate
    returns an empty list as it is, without the service. *)
Theorem runOnce_empty_selection (env : Env) (url : string) (m : Mode)
    (shared : option string) (w : World) (markup : string)
    (found : list Resource) :
  axios_get env url = inl markup ->
  parseResources env markup url m = Ok found ->
  (found = [] ->
   runOnce env url m shared w
   = (Ok tt,
      logged w [Console log (MsgFetching url m); HttpGet url;
                Console log (MsgNoResources m)]))
  /\ (found <> [] -> approved env found m (includeAll env) = [] ->
      runOnce env url m shared w
      = (Ok tt,
         logged w [Console log (MsgFetching url m); HttpGet url;
                   Checkbox (selection_message m) (selection_choices found);
                   Console log (MsgNoneSelected m)]))
  /\ (found = [] \/ approved env found m (includeAll env) = [] ->
      (runOnce env url m shared w).1 = Ok tt
      /\ files (runOnce env url m shared w).2 = files w)
  /\ (found = [] ->
      filter (fun ev => is_checkbox ev = true)
        (trace (runOnce env url m shared w).2)
      = filter (fun ev => is_checkbox ev = true) (trace w))
  /\ promptSelection env [] m true w
     = (Ok [], logged w [Console log (MsgAllIncluded m)]).
Proof.
  intros Hpage Hparse.
  pose proof (runOnce_run env url m shared w markup found Hpage Hparse) as Hrun.
  cbn zeta in Hrun.
  assert (found = [] ->
          runOnce env url m shared w
          = (Ok tt,
             logged w [Console log (MsgFetching url m); HttpGet url;
                       Console log (MsgNoResources m)])) as Hnone.
  { intros ->. rewrite Hrun. simpl. by rewrite logged_logged. }
  assert (found <> [] -> approved env found m (includeAll env) = [] ->
          runOnce env url m shared w
          = (Ok tt,
             logged w [Console log (MsgFetching url m); HttpGet url;
                       Checkbox (selection_message m) (selection_choices found);
                       Console log (MsgNoneSelected m)])) as Hnothing.
  { intros Hfound Happ. rewrite Hrun, Happ.
    destruct (approved_empty env found m Hfound Happ) as [Hall Hbox].
    destruct found; [done |]. cbn [length Nat.eqb].
    unfold selection_events. rewrite Hall, Hbox. simpl.
    by rewrite logged_logged. }
  split; [done |]. split; [done |]. split; [|split].
  - intros [Hempty|Happ].
    + by rewrite (Hnone Hempty).
    + destruct (decide (found = [])) as [Hempty|Hfound].
      * by rewrite (Hnone Hempty).
      * by rewrite (Hnothing Hfound Happ).
  - intros Hempty. rewrite (Hnone Hempty). unfold logged. cbn [snd trace].
    rewrite filter_app. cbn. by rewrite app_nil_r.
  - by rewrite promptSelection_run.
Qed.

(** The page without resources, and the operator who approves nothing. *)
Lemma runOnce_empty_selection_witness :
  runOnce Sample.env_empty "http://x/" css None Sample.world
  = (Ok tt,
     logged Sample.world
       [Console log (MsgFetching "http://x/" css); HttpGet "http://x/";
        Console log (MsgNoResources css)])
  /\ (runOnce (Sample.env_with [] [] false false) "http://x/" js None
        Sample.world).1 = Ok tt.
Proof.
  split.
  - apply (proj1 (runOnce_empty_selection Sample.env_empty "http://x/" css
                    None Sample.world "<html>" [] eq_refl eq_refl)).
    reflexivity.
  - apply (proj1 (proj2 (proj2 (runOnce_empty_selection
                    (Sample.env_with [] [] false false) "http://x/" js None
                    Sample.world "<html>"
                    [External "http://x/s.js" "http://x/s.js";
                     Inline "<script> inline #1" "alert(1)";
                     Inline "<script> inline #2" "x()"]
                    eq_refl eq_refl)))).
    right. reflexivity.
Defined.

(** C9.  When the page cannot be fetched the fetcher throws an error that
    carries the message of the transport error, after one request and no
    more; the run of the class ends with that error, and so does the whole
    invocation, with no file written. *)
Theorem fetchPage_failure_aborts (env : Env) (url : string) (m : Mode)
    (shared : option string) (w : World) (msg : string) :
  axios_get env url = inr msg ->
  fetchPage env url w
  = (Throw (Error ("Failed to fetch page: " +:+ msg)), logged w [HttpGet url])
  /\ runOnce env url m shared w
     = (Throw (Error ("Failed to fetch page: " +:+ msg)),
        logged w [Console log (MsgFetching url m); HttpGet url])
  /\ files (runOnce env url m shared w).2 = files w
  /\ (forall mode,
        falsy mode = true \/ mode = Some "css" \/ mode = Some "js" ->
        exists m',
          main env url mode shared w
          = (Throw (Error ("Failed to fetch page: " +:+ msg)),
             logged w [Console log (MsgFetching url m'); HttpGet url])).
Proof.
  intros Hpage. split; [|split; [|split]].
  - by rewrite fetchPage_run, Hpage.
  - by apply runOnce_fetch_failure.
  - by rewrite (runOnce_fetch_failure env url m shared w msg Hpage).
  - intros mode Hmode. by apply main_fetch_failure.
Qed.

(** The page that refuses the connection. *)
Lemma fetchPage_failure_aborts_witness :
  runOnce Sample.env_down "http://x/" css None Sample.world
  = (Throw (Error "Failed to fetch page: connect ECONNREFUSED"),
     logged Sample.world
       [Console log (MsgFetching "http://x/" css); HttpGet "http://x/"]).
Proof.
  apply (proj1 (proj2 (fetchPage_failure_aborts Sample.env_down "http://x/"
                         css None Sample.world "connect ECONNREFUSED"
                         eq_refl))).
Defined.

(** Any other mode is a usage error: the message, then exit code 1. *)
Example main_invalid_mode :
  main Sample.env "http://x/" (Some "html") None Sample.world
  = (Throw (ProcessExit 1), logged Sample.world [Console error MsgInvalidMode]).
Proof. reflexivity. Qed.

(** * Further properties *)

(** ** The slug, continued *)

Section SlugMore.

Implicit Types (s : string) (c : ascii).

Lemma strip_id s :
  Str.forallb Str.slug_char s = true -> Str.strip_non_slug s = s.
Proof.
  induction s as [|c s IH]; simpl; [done |].
  intros [Hc Hs]%andb_prop. by rewrite Hc, (IH Hs).
Qed.

Lemma lower_slug_char c : Str.slug_char c = true -> Str.lower_char c = c.
Proof. by destruct c as [[] [] [] [] [] [] [] []]. Qed.

Lemma slug_not_space c : Str.slug_char c = true -> Str.is_space c = false.
Proof. by destruct c as [[] [] [] [] [] [] [] []]. Qed.

Lemma lower_id s :
  Str.forallb Str.slug_char s = true -> Str.toLowerCase s = s.
Proof.
  induction s as [|c s IH]; simpl; [done |].
  intros [Hc Hs]%andb_prop. by rewrite (lower_slug_char c Hc), (IH Hs).
Qed.

Lemma replace_id b s :
  Str.forallb Str.slug_char s = true -> Str.replace_ws_from b s = s.
Proof.
  revert b. induction s as [|c s IH]; intros b; simpl; [done |].
  intros [Hc Hs]%andb_prop. by rewrite (slug_not_space c Hc), (IH false Hs).
Qed.

(** A code unit the name prompt accepts is whitespace or survives the
    filter once lowercased. *)
Lemma name_char_kept c :
  name_char c = true -> Str.is_space c = false ->
  Str.slug_char (Str.lower_char c) = true.
Proof. by destruct c as [[] [] [] [] [] [] [] []]. Qed.

Lemma replace_of_name b s :
  Str.forallb name_char s = true ->
  Str.forallb Str.slug_char (Str.replace_ws_from b (Str.toLowerCase s)) = true.
Proof.
  revert b. induction s as [|c s IH]; intros b; simpl; [done |].
  intros [Hc Hs]%andb_prop. rewrite is_space_lower.
  destruct (Str.is_space c) eqn:E.
  - destruct b; simpl; by rewrite IH.
  - simpl. by rewrite (name_char_kept c Hc E), IH.
Qed.

End SlugMore.

(** X1.  A name the prompt accepts loses nothing to the filter: its slug is
    the lowercased name with every whitespace run turned into a hyphen, and
    the part before the suffix is not empty. *)
Theorem validated_name_slug (val suffix : string) :
  validate val = true ->
  slugify val suffix
  = Str.replace_ws (Str.toLowerCase val) +:+ "-" +:+ suffix
  /\ slug_stem val <> ""
  /\ Str.forallb Str.slug_char (Str.replace_ws (Str.toLowerCase val)) = true.
Proof.
  unfold validate. intros [Hne Hall]%andb_prop.
  pose proof (replace_of_name false val Hall) as Hslug.
  split; [|split; [|done]].
  - unfold slugify. by rewrite strip_id.
  - unfold slug_stem. rewrite strip_id by done. unfold Str.replace_ws.
    destruct val as [|c s]; [done |]. simpl.
    destruct (Str.is_space (Str.lower_char c)); done.
Qed.

Lemma validated_name_slug_witness :
  slugify "My  Site 2" "css" = "my-site-2" +:+ "-" +:+ "css"
  /\ slug_stem "My  Site 2" <> "".
Proof.
  destruct (validated_name_slug "My  Site 2" "css" eq_refl) as (H1 & H2 & _).
  split; [exact H1 | exact H2].
Defined.

(** X2.  Slugging a slug changes nothing: the stem of a name is a fixed
    point of the three steps, so a technical identifier can be derived again
    from the stem it was built on. *)
Theorem slug_stem_idempotent (visibleName suffix : string) :
  slug_stem (slug_stem visibleName) = slug_stem visibleName
  /\ slugify (slug_stem visibleName) suffix = slugify visibleName suffix.
Proof.
  assert (slug_stem (slug_stem visibleName) = slug_stem visibleName) as H.
  { unfold slug_stem at 1.
    pose proof (forallb_strip (Str.replace_ws (Str.toLowerCase visibleName)))
      as Hs.
    fold (slug_stem visibleName) in Hs.
    rewrite (lower_id _ Hs). unfold Str.replace_ws.
    rewrite (replace_id false _ Hs). by apply strip_id. }
  split; [done |]. unfold slugify. fold (slug_stem (slug_stem visibleName)).
  by rewrite H.
Qed.

(** X3.  Whatever the visible name, the archive of a run is a file directly
    in the output directory: the slug holds no separator and no dot segment,
    so [path.join] cannot be led out of [output]. *)
Theorem archive_stays_in_output (env : Env) (visibleName : string) (m : Mode) :
  PathM.join (OUTPUT_DIR env) (slugify visibleName (mode_str m) +:+ ".zip")
  = dirname env ++ ["output"; slugify visibleName (mode_str m) +:+ ".zip"]
  /\ Fs.outside (TEMP_DIR env)
       (PathM.join (OUTPUT_DIR env)
          (slugify visibleName (mode_str m) +:+ ".zip")).
Proof.
  rewrite join_simple by apply simple_zip_name.
  rewrite OUTPUT_DIR_eq, TEMP_DIR_eq, <- app_assoc. split; [done |].
  apply (archive_outside_staging env (slugify visibleName (mode_str m))).
Qed.

(** A technical name that is no slug can lead the join elsewhere. *)
Example join_escapes :
  PathM.join (OUTPUT_DIR Sample.env) ("../../x" +:+ ".zip") = ["x.zip"].
Proof. reflexivity. Qed.

(** ** Discovery, continued *)

Section DiscoveryMore.

Context (env : Env).

Implicit Types (m : Mode) (el : Element) (found : list Resource).

Lemma verdict_inline_tag m el tag content :
  verdict m el = EmitInline tag content ->
  tag = inline_tag m /\ content = html el.
Proof.
  destruct m; simpl.
  - case_bool_decide.
    + destruct (attr "href" (attribs el)) as [[|c s]|]; done.
    + intros Hv. by injection Hv as <- <-.
  - destruct (attr "src" (attribs el)) as [[|c s]|];
      destruct (blank (html el)); try done;
      intros Hv; by injection Hv as <- <-.
Qed.

Lemma verdict_external_locator m el locator :
  verdict m el = EmitExternal locator ->
  attr (locator_attr m) (attribs el) = Some locator /\ locator <> "".
Proof.
  destruct m; simpl.
  - case_bool_decide; [|done].
    destruct (attr "href" (attribs el)) as [[|c s]|]; try done.
    intros Hv. by injection Hv as <-.
  - destruct (attr "src" (attribs el)) as [[|c s]|];
      try (by destruct (blank (html el))).
    intros Hv. by injection Hv as <-.
Qed.

Lemma toString_inj : Inj (=) (=) Num.toString.
Proof.
  intros a b H. unfold Num.toString in H.
  apply DecimalNat.Unsigned.to_uint_inj.
  pose proof (NilEmpty.usu (Nat.to_uint a)) as Ha.
  rewrite H, NilEmpty.usu in Ha. by injection Ha.
Qed.

Lemma inline_label_inj m : Inj (=) (=) (inline_label m).
Proof.
  intros a b H. unfold inline_label in H.
  apply String.app_inj, String.app_inj, String.app_inj in H.
  by apply toString_inj.
Qed.

(** The inline references are numbered from the counter on, one by one. *)
Lemma Discovered_inline_labels baseUrl m n els found :
  Discovered env baseUrl m n els found ->
  inline_labels found
  = inline_label m <$> seq n (length (inline_labels found)).
Proof.
  induction 1 as [n|n el els found V D IH|n el els found loc full V U D IH
                  |n el els found tag content V D IH]; simpl; [done..|].
  apply verdict_inline_tag in V as [-> ->].
  by rewrite IH at 1.
Qed.

(** Every reference comes from a matching element. *)
Lemma Discovered_provenance baseUrl m n els found :
  Discovered env baseUrl m n els found ->
  length found <= length els
  /\ (forall lbl url,
        External lbl url ∈ found ->
        lbl = url
        /\ exists el locator,
             el ∈ els
             /\ attr (locator_attr m) (attribs el) = Some locator
             /\ locator <> ""
             /\ url_href env locator baseUrl = Some url)
  /\ (forall lbl content,
        Inline lbl content ∈ found ->
        exists el, el ∈ els /\ html el = content).
Proof.
  induction 1 as [n|n el els found V D IH|n el els found loc full V U D IH
                  |n el els found tag content V D IH]; simpl.
  - split; [done |]. split; intros ? ? ?%elem_of_nil; done.
  - destruct IH as (Hl & He & Hi). split; [lia |]. split.
    + intros lbl url Hin. destruct (He lbl url Hin) as (-> & el' & l' & ? & ?).
      split; [done |]. exists el', l'. split; [by right | done].
    + intros lbl content Hin. destruct (Hi lbl content Hin) as (el' & ? & ?).
      exists el'. split; [by right | done].
  - destruct IH as (Hl & He & Hi). split; [lia |]. split.
    + intros lbl url [Heq|Hin]%elem_of_cons.
      * injection Heq as -> ->. split; [done |].
        apply verdict_external_locator in V as [Ha Hne].
        exists el, loc. split; [by left | done].
      * destruct (He lbl url Hin) as (-> & el' & l' & ? & ?).
        split; [done |]. exists el', l'. split; [by right | done].
    + intros lbl content [Heq|Hin]%elem_of_cons; [done |].
      destruct (Hi lbl content Hin) as (el' & ? & ?).
      exists el'. split; [by right | done].
  - destruct IH as (Hl & He & Hi). split; [lia |]. split.
    + intros lbl url [Heq|Hin]%elem_of_cons; [done |].
      destruct (He lbl url Hin) as (-> & el' & l' & ? & ?).
      split; [done |]. exists el', l'. split; [by right | done].
    + intros lbl c [Heq|Hin]%elem_of_cons.
      * injection Heq as -> ->. apply verdict_inline_tag in V as [_ ->].
        exists el. split; [by left | done].
      * destruct (Hi lbl c Hin) as (el' & ? & ?).
        exists el'. split; [by right | done].
Qed.

Lemma parseResources_Discovered markup baseUrl m found :
  parseResources env markup baseUrl m = Ok found ->
  Discovered env baseUrl m 1 (matching env markup m) found.
Proof.
  intros H. rewrite parseResources_each in H.
  destruct (each _ _ _) as [st|] eqn:E; [|done]. injection H as <-.
  by apply each_discovered in E as (found & -> & D).
Qed.

(** The loop throws nothing but the error of the URL constructor. *)
Lemma each_throws_invalid_url m baseUrl els st e :
  each (visit env m baseUrl) els st = Throw e -> e = TypeError "Invalid URL".
Proof.
  revert st. induction els as [|el els IH]; intros st; simpl; [done |].
  rewrite visit_verdict. destruct (verdict m el); eauto.
  unfold push_external, new_URL.
  destruct (url_href env locator baseUrl); eauto. intros H. by injection H.
Qed.

(** A locator that cannot be resolved makes the loop throw. *)
Lemma each_unresolvable m baseUrl els st el locator :
  el ∈ els -> verdict m el = EmitExternal locator ->
  url_href env locator baseUrl = None ->
  each (visit env m baseUrl) els st = Throw (TypeError "Invalid URL").
Proof.
  intros Hin V U.
  destruct (each (visit env m baseUrl) els st) as [st'|e] eqn:E.
  - exfalso. revert st E.
    induction els as [|x els IH]; intros st E; [by apply elem_of_nil in Hin |].
    simpl in E. rewrite visit_verdict in E.
    apply elem_of_cons in Hin as [<-|Hin].
    + rewrite V in E. unfold push_external, new_URL in E. by rewrite U in E.
    + destruct (verdict m x); eauto.
      unfold push_external, new_URL in E.
      destruct (url_href env locator0 baseUrl); eauto. done.
  - by rewrite (each_throws_invalid_url _ _ _ _ _ E).
Qed.

Lemma runOnce_parse_failure url m shared w markup e :
  axios_get env url = inl markup ->
  parseResources env markup url m = Throw e ->
  runOnce env url m shared w
  = (Throw e, logged w [Console log (MsgFetching url m); HttpGet url]).
Proof.
  intros Hpage Hparse. unfold runOnce.
  unfold bind at 1. unfold console at 1, emit at 1.
  unfold bind at 1. rewrite fetchPage_run, Hpage.
  unfold bind at 1, lift at 1. rewrite Hparse.
  unfold logged. simpl. by rewrite <- app_assoc.
Qed.

End DiscoveryMore.

(** X4.  The inline references of one discovery carry the labels
    [<tag> inline #1], [<tag> inline #2], ... in the order of the document,
    with the tag of the class; no two of them share a label. *)
Theorem parseResources_inline_numbering (env : Env) (markup baseUrl : string)
    (m : Mode) (found : list Resource) :
  parseResources env markup baseUrl m = Ok found ->
  inline_labels found
  = inline_label m <$> seq 1 (length (inline_labels found))
  /\ NoDup (inline_labels found).
Proof.
  intros H%parseResources_Discovered.
  apply Discovered_inline_labels in H. split; [done |].
  rewrite H. pose proof (inline_label_inj m) as Hinj.
  apply (NoDup_fmap_2 _), NoDup_seq.
Qed.

Lemma parseResources_inline_numbering_witness :
  inline_labels
    [Sample.a; Sample.b; Sample.c; Inline "<style> inline #2" ""]
  = [inline_label css 1; inline_label css 2].
Proof.
  apply (proj1 (parseResources_inline_numbering Sample.env "<html>"
                  "http://x/" css _ eq_refl)).
Defined.

(** X5.  Every discovered reference comes from a matching element: there are
    no more references than elements, an external reference has its locator
    as label and that locator is the resolution of a non-empty [href]
    ([src] for scripts) of an element, and an inline reference carries the
    inner text of an element as it stands, untrimmed. *)
Theorem parseResources_provenance (env : Env) (markup baseUrl : string)
    (m : Mode) (found : list Resource) :
  parseResources env markup baseUrl m = Ok found ->
  length found <= length (matching env markup m)
  /\ (forall lbl url,
        External lbl url ∈ found ->
        lbl = url
        /\ exists el locator,
             el ∈ matching env markup m
             /\ attr (locator_attr m) (attribs el) = Some locator
             /\ locator <> ""
             /\ url_href env locator baseUrl = Some url)
  /\ (forall lbl content,
        Inline lbl content ∈ found ->
        exists el, el ∈ matching env markup m /\ html el = content).
Proof.
  intros H%parseResources_Discovered. by apply Discovered_provenance in H.
Qed.

Lemma parseResources_provenance_witness :
  length [Sample.a; Sample.b; Sample.c; Inline "<style> inline #2" ""]
  <= length (matching Sample.env "<html>" css).
Proof.
  apply (proj1 (parseResources_provenance Sample.env "<html>" "http://x/"
                  css _ eq_refl)).
Defined.

(** X6.  One locator that the URL constructor rejects fails the whole
    discovery with its [TypeError], whatever was found before; the run ends
    there, after the page request, with no prompt and nothing written. *)
Theorem parseResources_unresolvable (env : Env) (url : string) (m : Mode)
    (shared : option string) (w : World) (markup : string) (el : Element)
    (locator : string) :
  el ∈ matching env markup m ->
  verdict m el = EmitExternal locator ->
  url_href env locator url = None ->
  parseResources env markup url m = Throw (TypeError "Invalid URL")
  /\ (axios_get env url = inl markup ->
      runOnce env url m shared w
      = (Throw (TypeError "Invalid URL"),
         logged w [Console log (MsgFetching url m); HttpGet url])).
Proof.
  intros Hin V U.
  assert (parseResources env markup url m = Throw (TypeError "Invalid URL"))
    as Hparse.
  { rewrite parseResources_each.
    by rewrite (each_unresolvable env m url _ ([], 1) el locator Hin V U). }
  split; [done |]. intros Hpage.
  by apply (runOnce_parse_failure env url m shared w markup).
Qed.

Lemma parseResources_unresolvable_witness :
  runOnce Scenario.env_bad_url "http://x/" css None Sample.world
  = (Throw (TypeError "Invalid URL"),
     logged Sample.world
       [Console log (MsgFetching "http://x/" css); HttpGet "http://x/"]).
Proof.
  destruct (parseResources_unresolvable Scenario.env_bad_url "http://x/"
              css None Sample.world "<html>" (Sample.link "b.css") "b.css")
    as [_ Hrun].
  - right; right; right; left.
  - reflexivity.
  - reflexivity.
  - apply Hrun. reflexivity.
Defined.

(** ** Selection, continued *)

Section SelectionMore.

Context (env : Env).

(** Decoding the values of the presented items gives back the list. *)
Lemma presented_values_decode (resources : list Resource) :
  (fun i => Num.index resources (Num.parseInt i))
    <$> (value <$> selection_choices resources)
  = Some <$> resources.
Proof.
  apply list_eq. intros i. unfold selection_choices.
  rewrite !list_lookup_fmap, list_lookup_imap.
  destruct (resources !! i) as [r|] eqn:E; simpl; [|done].
  by rewrite index_toString, E.
Qed.

End SelectionMore.

(** X7.  An operator who accepts the list as presented (every item is
    pre-checked) gets exactly what auto-approval gives: the position of each
    item is written as decimal text, read back by [parseInt], and leads to
    the same resource, so the gate returns the whole list in order. *)
Theorem promptSelection_accept_all (env : Env) (resources : list Resource)
    (m : Mode) (w : World) :
  checkbox env (selection_message m) (selection_choices resources)
  = value <$> selection_choices resources ->
  (promptSelection env resources m false w).1 = Ok (Some <$> resources)
  /\ (promptSelection env resources m false w).1
     = (promptSelection env resources m true w).1.
Proof.
  intros Hbox. rewrite !promptSelection_run. simpl. unfold approved.
  rewrite Hbox, presented_values_decode, !length_fmap.
  unfold selection_choices. rewrite length_imap.
  by destruct resources.
Qed.

Lemma promptSelection_accept_all_witness :
  (promptSelection Scenario.env_accept [Sample.a; Sample.b; Sample.c] css
     false Sample.world).1
  = Ok (Some <$> [Sample.a; Sample.b; Sample.c]).
Proof.
  apply (proj1 (promptSelection_accept_all Scenario.env_accept
                  [Sample.a; Sample.b; Sample.c] css Sample.world eq_refl)).
Defined.

(** ** Resolution, continued *)

Section ResolutionMore.

Context (env : Env).

Implicit Types (refs : list Resource) (slots : list Slot) (w : World).

Lemma start_tasks_any (selected : list (option Resource)) w :
  mapM start_task selected w
  = (Ok (first_slot <$> selected), logged w (start_events selected)).
Proof.
  revert w. induction selected as [|res selected IH]; intros w.
  - simpl. unfold ret. by rewrite logged_nil.
  - rewrite fmap_cons. cbn [mapM]. unfold bind at 1.
    assert (start_task res w
            = (Ok (first_slot res),
               logged w (start_events [res]))) as ->.
    { destruct res as [[]|]; simpl; try done.
      unfold ret. by rewrite logged_nil. }
    unfold bind at 1. rewrite IH. unfold ret. rewrite logged_logged.
    by destruct res as [[]|].
Qed.

Lemma first_rejection_undefined (selected : list (option Resource)) :
  None ∈ selected ->
  first_rejection (first_slot <$> selected)
  = Some (TypeError "Cannot read properties of undefined (reading 'type')").
Proof.
  induction selected as [|[[]|] selected IH]; simpl.
  - by intros ?%elem_of_nil.
  - intros [?|?]%elem_of_cons; [done | by apply IH].
  - intros [?|?]%elem_of_cons; [done | by apply IH].
  - done.
Qed.

(** With an [undefined] element the tasks are started and the whole is
    rejected at once. *)
Lemma downloadResources_undefined_run (selected : list (option Resource)) w :
  None ∈ selected ->
  downloadResources env selected w
  = (Throw (TypeError "Cannot read properties of undefined (reading 'type')"),
     logged w (start_events selected)).
Proof.
  intros H. unfold downloadResources. unfold bind at 1.
  rewrite start_tasks_any. by rewrite first_rejection_undefined.
Qed.

Lemma pending_urls_initial refs :
  pending_urls (initial_slot <$> refs) = external_urls refs.
Proof.
  unfold pending_urls, external_urls.
  induction refs as [|[] refs IH]; simpl; [done | | apply IH].
  f_equal. apply IH.
Qed.

Lemma pending_urls_settle slots i url text :
  slots !! i = Some (Pending url) ->
  pending_urls slots ≡ₚ url :: pending_urls (<[i := Settled text]> slots).
Proof.
  revert i. induction slots as [|s slots IH]; intros i H; [done |].
  destruct i as [|i]; simpl in *.
  - by injection H as ->.
  - specialize (IH i H). unfold pending_urls in *.
    destruct s; simpl; [|apply IH..].
    etrans; [apply Permutation_skip, IH | apply Permutation_swap].
Qed.

Lemma pending_urls_nil slots :
  pending_indices slots = [] -> pending_urls slots = [].
Proof.
  unfold pending_indices, pending_urls. generalize 0 as k.
  induction slots as [|[] slots IH]; intros k H; simpl in *;
    [done | done | by apply (IH (S k)) ..].
Qed.

(** The loop reports every pending download exactly once. *)
Lemma settle_loop_reports fuel picks slots w :
  length (pending_indices slots) <= fuel ->
  exists slots' evs,
    settle_loop env fuel picks slots w = (Ok slots', logged w evs)
    /\ evs ≡ₚ settle_event env <$> pending_urls slots.
Proof.
  revert picks slots w.
  induction fuel as [|fuel IH]; intros picks slots w Hlen.
  - exists slots, []. simpl. unfold ret. rewrite logged_nil. split; [done |].
    assert (pending_indices slots = []) as Hp
      by (destruct (pending_indices slots); [done | simpl in Hlen; lia]).
    by rewrite (pending_urls_nil slots Hp).
  - cbn [settle_loop].
    destruct (pending_indices slots) as [|i0 rest] eqn:Hp.
    + exists slots, []. unfold ret. rewrite logged_nil. split; [done |].
      by rewrite (pending_urls_nil slots Hp).
    + set (i := nth _ (i0 :: rest) i0).
      assert (i ∈ pending_indices slots) as Hin.
      { rewrite Hp. apply list_elem_of_In, nth_In.
        change (length (i0 :: rest)) with (S (length rest)).
        apply Nat.mod_upper_bound. lia. }
      apply pending_from_elem in Hin as (j & url & Hij & Hj).
      simpl in Hij. subst j. rewrite Hj.
      unfold bind at 1. rewrite settle_task_run.
      destruct (IH (tl picks)
                  (<[i := Settled (resolved_text env (External url url))]>
                     slots)
                  (logged w [settle_event env url]))
        as (slots' & evs & Hrun & Hperm).
      { pose proof (pending_from_settle 0 slots i url
                      (resolved_text env (External url url)) Hj) as Hs.
        unfold pending_indices in *. rewrite Hp in Hs. simpl in *. lia. }
      exists slots', (settle_event env url :: evs).
      rewrite Hrun, logged_logged. split; [done |].
      rewrite Hperm.
      rewrite (pending_urls_settle slots i url
                 (resolved_text env (External url url)) Hj).
      done.
Qed.

Lemma logged_inj w evs evs' : logged w evs = logged w evs' -> evs = evs'.
Proof.
  unfold logged. intros H. injection H as H. by apply app_inv_head in H.
Qed.

(** The run of [downloadResources] with what it prints, up to the order of
    settling. *)
Lemma downloadResources_reports refs w :
  exists settles,
    downloadResources env (Some <$> refs) w
    = (Ok (join (nl +:+ nl) (resolved_text env <$> refs)),
       logged w ((start_event <$> refs) ++ settles))
    /\ settles ≡ₚ settle_event env <$> external_urls refs.
Proof.
  destruct (downloadResources_run env refs w) as (evs & Hrun & _).
  exists evs. split; [done |].
  unfold downloadResources in Hrun. unfold bind at 1 in Hrun.
  rewrite start_tasks, first_rejection_initial in Hrun.
  destruct (settle_loop_reports (length (initial_slot <$> refs))
              (settle_picks env) (initial_slot <$> refs)
              (logged w (start_event <$> refs)) (pending_bound _))
    as (slots' & evs' & Hloop & Hperm).
  unfold bind in Hrun. rewrite Hloop in Hrun.
  rewrite pending_urls_initial in Hperm.
  assert (logged (logged w (start_event <$> refs)) evs'
          = logged w ((start_event <$> refs) ++ evs)) as Hw.
  { destruct (collect slots'); unfold ret, throw in Hrun; [|done].
    by apply (f_equal snd) in Hrun. }
  rewrite logged_logged in Hw. apply logged_inj, app_inv_head in Hw.
  by subst evs'.
Qed.

Lemma requests_app (t t' : list Event) :
  requests (t ++ t') = requests t ++ requests t'.
Proof. unfold requests. by rewrite omap_app. Qed.

Lemma requests_start refs :
  requests (start_event <$> refs) = external_urls refs.
Proof.
  unfold requests, external_urls.
  induction refs as [|[] refs IH]; simpl; [done | | apply IH].
  f_equal. apply IH.
Qed.

Lemma requests_settle (urls : list string) :
  requests (settle_event env <$> urls) = [].
Proof.
  unfold requests.
  induction urls as [|u urls IH]; [done |].
  rewrite fmap_cons. unfold settle_event at 1.
  destruct (axios_get env u); simpl; apply IH.
Qed.

End ResolutionMore.

(** X8.  Every external reference is requested exactly once, in the order of
    the list and before any download is awaited, and is reported exactly
    once, as loaded or as failed: there is no retry and no second report. *)
Theorem downloadResources_one_request_each (env : Env) (refs : list Resource)
    (w : World) :
  let run := downloadResources env (Some <$> refs) w in
  exists settles,
    trace run.2 = trace w ++ (start_event <$> refs) ++ settles
    /\ settles ≡ₚ settle_event env <$> external_urls refs
    /\ requests (trace run.2) = requests (trace w) ++ external_urls refs.
Proof.
  cbn zeta. destruct (downloadResources_reports env refs w)
    as (settles & -> & Hperm).
  exists settles. simpl. split; [done |]. split; [done |].
  rewrite !requests_app, requests_start.
  assert (requests settles = []) as ->; [|by rewrite app_nil_r].
  apply Permutation_nil_r. unfold requests.
  rewrite Hperm. fold (requests (settle_event env <$> external_urls refs)).
  by rewrite requests_settle.
Qed.

(** X9.  An [undefined] element of the approved list, which a reported value
    that is no position of the list produces, makes the resolution throw the
    [TypeError] of the read of [res.type].  At the throw the tasks of the
    other elements have been started (the request of every external one is
    issued, every inline one is shown), no download has been awaited or
    reported, and nothing is merged; the requests are left pending. *)
Theorem downloadResources_undefined (env : Env)
    (selected : list (option Resource)) (w : World) :
  None ∈ selected ->
  downloadResources env selected w
  = (Throw (TypeError "Cannot read properties of undefined (reading 'type')"),
     logged w (start_events selected))
  /\ requests (start_events selected) = external_urls (omap id selected)
  /\ (forall url, settle_event env url ∉ start_events selected)
  /\ (forall (resources : list Resource) i,
        length resources <= i ->
        Num.index resources (Num.parseInt (Num.toString i)) = None).
Proof.
  intros H. split; [by apply downloadResources_undefined_run |].
  split; [|split].
  - clear H. unfold requests, start_events, external_urls.
    induction selected as [|[[]|] selected IH]; simpl;
      [done | | apply IH | apply IH].
    f_equal. apply IH.
  - intros url Hin. unfold start_events in Hin.
    apply list_elem_of_omap in Hin as (o & _ & Ho).
    unfold settle_event in Ho.
    destruct o as [[]|], (axios_get env url); simplify_eq.
  - intros resources i Hi. rewrite index_toString. by apply lookup_ge_None.
Qed.

Lemma downloadResources_undefined_witness :
  downloadResources Sample.env [Some Sample.a; None; Some Sample.b]
    Sample.world
  = (Throw (TypeError "Cannot read properties of undefined (reading 'type')"),
     logged Sample.world
       [HttpGet "http://x/a.css";
        Console log (MsgLoadedInline "<style> inline #1")]).
Proof.
  apply (proj1 (downloadResources_undefined Sample.env
                  [Some Sample.a; None; Some Sample.b] Sample.world
                  ltac:(right; left))).
Defined.

(** ** The run of one class, continued *)

Section RunMore.

Context (env : Env).

Implicit Types (w : World) (m : Mode).

(** What [saveFiles] shows and leaves, for names of one segment. *)
Lemma saveFiles_result outputFileName content manifestDoc technicalName
    noZipFlag w :
  PathM.simple outputFileName = true ->
  PathM.simple (technicalName +:+ ".zip") = true ->
  saveFiles env outputFileName content manifestDoc technicalName noZipFlag w
  = (Ok tt,
     {| files :=
          if noZipFlag
          then Layout.staged env outputFileName content manifestDoc (files w)
          else Fs.prune (Layout.staging env)
                 (<[Layout.archive_path env technicalName :=
                      Layout.archive outputFileName content manifestDoc]>
                    (Layout.staged env outputFileName content manifestDoc
                       (files w)));
        trace :=
          trace w
          ++ save_events env outputFileName content manifestDoc technicalName
               noZipFlag |}).
Proof.
  intros Hf Hz. rewrite saveFiles_run by done. by destruct noZipFlag.
Qed.

End RunMore.

(** X11.  The stages of a run that reaches packaging follow one another in
    a fixed order, seen in the trace: the page request, the selection, the
    name, the count of selected blocks, the start of every task in the order
    of the list, the reports of the downloads (in the order they settle),
    and only then the writes of [saveFiles]. *)
Theorem runOnce_stage_order (env : Env) (url : string) (m : Mode)
    (shared : option string) (w : World) (markup : string)
    (found refs : list Resource) (visibleName : string) :
  axios_get env url = inl markup ->
  parseResources env markup url m = Ok found ->
  found <> [] ->
  approved env found m (includeAll env) = Some <$> refs ->
  refs <> [] ->
  named env m shared = Ok visibleName ->
  let technicalName := slugify visibleName (mode_str m) in
  let combined := join (nl +:+ nl) (resolved_text env <$> refs) in
  exists settles,
    settles ≡ₚ settle_event env <$> external_urls refs
    /\ (runOnce env url m shared w).1 = Ok tt
    /\ trace (runOnce env url m shared w).2
       = trace w
         ++ [Console log (MsgFetching url m); HttpGet url]
         ++ selection_events env found m (includeAll env)
         ++ name_events m shared
         ++ [Console log (MsgSelectedBlocks m (length refs))]
         ++ (start_event <$> refs)
         ++ settles
         ++ save_events env (fileName (MODES m)) combined
              (generateYaml env technicalName visibleName m
                 (fileName (MODES m)))
              technicalName (noZip env).
Proof.
  intros Hpage Hparse Hfound Happ Hrefs Hname. cbn zeta.
  rewrite (runOnce_run env url m shared w markup found Hpage Hparse).
  cbn zeta. rewrite Happ, Hname.
  destruct found; [done |]. destruct refs as [|r0 refs]; [done |].
  cbn [length Nat.eqb]. rewrite length_fmap. cbn [length Nat.eqb].
  match goal with
  | |- context [bind _ _ ?w0] =>
      destruct (downloadResources_reports env (r0 :: refs) w0)
        as (settles & Hrun & Hperm)
  end.
  exists settles. split; [done |].
  unfold bind. rewrite Hrun.
  rewrite saveFiles_result by (apply simple_fileName || apply simple_zip_name).
  unfold logged. cbn [fst snd trace files]. split; [done |].
  rewrite <- !app_assoc. cbn [length]. done.
Qed.

Lemma runOnce_stage_order_witness :
  (runOnce Sample.env "http://x/" css (Some "My Site") Sample.world).1 = Ok tt.
Proof.
  destruct (runOnce_stage_order Sample.env "http://x/" css (Some "My Site")
              Sample.world "<html>"
              [Sample.a; Sample.b; Sample.c; Inline "<style> inline #2" ""]
              [Sample.a; Sample.b; Sample.c; Inline "<style> inline #2" ""]
              "My Site" eq_refl eq_refl)
    as (settles & _ & Hok & _);
    [discriminate | reflexivity | discriminate | reflexivity | exact Hok].
Defined.

(** ** Both classes in one invocation *)

Section BothClasses.

Context (env : Env).

Implicit Types (w : World) (name : string).







End BothClasses.





(** ** The manifest, continued *)

Section ManifestMore.

Implicit Types (k : string) (v : Yaml) (props : list (string * Yaml)).

Lemma prop_has k props : Obj.has k props = false -> prop k props = None.
Proof.
  induction props as [|[k' v'] props IH]; simpl; [done |].
  intros [-> H]%orb_false_elim. by apply IH.
Qed.

Lemma prop_alter f k props :
  prop k (Obj.alter f k props) = f <$> prop k props.
Proof.
  induction props as [|[k' v'] props IH]; simpl; [done |].
  destruct (String.eqb k' k) eqn:E; simpl; rewrite E; [done | apply IH].
Qed.

Lemma prop_alter_ne f k k' props :
  k <> k' -> prop k' (Obj.alter f k props) = prop k' props.
Proof.
  intros Hne. induction props as [|[k0 v0] props IH]; simpl; [done |].
  destruct (String.eqb_spec k0 k) as [->|]; simpl.
  - by rewrite (proj2 (String.eqb_neq k k')).
  - by rewrite IH.
Qed.

Lemma prop_insert_index n k v props :
  Obj.has k props = false -> prop k (Obj.insert_index n k v props) = Some v.
Proof.
  induction props as [|[k' v'] props IH]; simpl.
  - by rewrite String.eqb_refl.
  - intros [Hk H]%orb_false_elim.
    destruct (Obj.index_of_key k') as [n'|]; [destruct (n <? n')%N |]; simpl;
      rewrite ?String.eqb_refl, ?Hk; auto.
Qed.

Lemma prop_insert_index_ne n k k' v props :
  k <> k' -> prop k' (Obj.insert_index n k v props) = prop k' props.
Proof.
  intros Hne%String.eqb_neq.
  induction props as [|[k0 v0] props IH]; simpl; [by rewrite Hne |].
  destruct (Obj.index_of_key k0) as [n'|]; [destruct (n <? n')%N |]; simpl;
    rewrite ?Hne, ?IH; done.
Qed.

Lemma prop_snoc k v props :
  Obj.has k props = false -> prop k (props ++ [(k, v)]) = Some v.
Proof.
  induction props as [|[k' v'] props IH]; simpl.
  - by rewrite String.eqb_refl.
  - intros [-> H]%orb_false_elim. by apply IH.
Qed.

Lemma prop_snoc_ne k k' v props :
  k <> k' -> prop k' (props ++ [(k, v)]) = prop k' props.
Proof.
  intros Hne%String.eqb_neq.
  induction props as [|[k0 v0] props IH]; simpl; [by rewrite Hne |].
  by rewrite IH.
Qed.

(** Reading a property just set gives the value set; the other properties
    read as before. *)
Lemma prop_set k v props : prop k (Obj.set k v props) = Some v.
Proof.
  unfold Obj.set. destruct (Obj.has k props) eqn:H.
  - rewrite prop_alter.
    assert (is_Some (prop k props)) as [x ->]; [|done].
    clear v. induction props as [|[k' v'] props IH]; simpl in *; [done |].
    destruct (String.eqb k' k); [by eauto | by apply IH].
  - destruct (Obj.index_of_key k);
      [by apply prop_insert_index | by apply prop_snoc].
Qed.

Lemma prop_set_ne k k' v props :
  k <> k' -> prop k' (Obj.set k v props) = prop k' props.
Proof.
  intros Hne. unfold Obj.set. destruct (Obj.has k props).
  - by apply prop_alter_ne.
  - destruct (Obj.index_of_key k);
      [by apply prop_insert_index_ne | by apply prop_snoc_ne].
Qed.

End ManifestMore.

(** X14.  Whatever string serves as technical name (a number-like key or the
    key [assemble] included), the manifest object holds the entry with
    [name], [type], [url] and, for scripts, the attributes under that key;
    and unless the technical name is [assemble] itself, it holds the
    [assemble] instruction as well. *)
Theorem manifest_entry_present (technicalName visibleName : string) (m : Mode)
    (outputFileName : string) :
  exists props,
    manifest technicalName visibleName m outputFileName = YMap props
    /\ prop technicalName props
       = Some (manifest_entry visibleName m outputFileName)
    /\ (technicalName <> "assemble" ->
        prop "assemble" props = Some assemble_instruction).
Proof.
  unfold manifest.
  set (entry := YMap [("name", YStr visibleName);
                      ("type", YStr (yamlType (MODES m)));
                      ("url", YStr outputFileName)]).
  set (base := Obj.set technicalName entry _).
  assert (prop technicalName base = Some entry) as Hentry
    by apply prop_set.
  assert (technicalName <> "assemble" ->
          prop "assemble" base = Some assemble_instruction) as Hasm.
  { intros Hne. subst base. by rewrite prop_set_ne. }
  destruct m.
  - exists base. split; [done |]. split; [done | done].
  - cbn [MODES scriptElementAttributes]. eexists. split; [done |]. split.
    + rewrite prop_alter, Hentry. done.
    + intros Hne. rewrite prop_alter_ne by done. by apply Hasm.
Qed.

Lemma manifest_entry_present_witness :
  exists props,
    manifest "5" "Five" css "global.css" = YMap props
    /\ prop "5" props = Some (manifest_entry "Five" css "global.css")
    /\ prop "assemble" props = Some assemble_instruction.
Proof.
  destruct (manifest_entry_present "5" "Five" css "global.css")
    as (props & Hm & He & Ha).
  exists props. split; [exact Hm |]. split; [exact He |].
  apply Ha. discriminate.
Defined.

(** A number-like technical name is enumerated before [assemble]. *)
Example manifest_index_key :
  manifest "5" "Five" css "global.css"
  = YMap [("5", manifest_entry "Five" css "global.css");
          ("assemble", assemble_instruction)].
Proof. reflexivity. Qed.

(** ** The earlier variant *)

Section LegacyLoop.

Context (env : Env).

Implicit Types (refs : list Resource) (w : World).

Lemma legacy_step_run combined (r : Resource) w :
  Legacy.step env combined (Some r) w
  = (Ok (combined +:+ Legacy.appended env r),
     logged w (Legacy.turn_events env r)).
Proof.
  destruct r as [lbl url|lbl content]; simpl.
  - unfold try_catch, bind, axios, console, emit, ret, throw, logged,
      Legacy.appended, Legacy.turn_events, settle_event. simpl.
    destruct (axios_get env url); simpl; rewrite <- app_assoc;
      [done | by rewrite sapp_nil_r].
  - unfold bind, console, emit, ret, logged, Legacy.appended. simpl.
    by rewrite !sapp_assoc.
Qed.

Lemma legacy_combine_run refs combined w :
  Legacy.combine env (Some <$> refs) combined w
  = (Ok (combined +:+ SlugSpec.concat (Legacy.appended env <$> refs)),
     logged w (concat (Legacy.turn_events env <$> refs))).
Proof.
  revert combined w. induction refs as [|r refs IH]; intros combined w.
  - simpl. unfold ret. by rewrite logged_nil, sapp_nil_r.
  - rewrite !fmap_cons. cbn [Legacy.combine]. unfold bind.
    rewrite legacy_step_run, IH, logged_logged. simpl.
    by rewrite sapp_assoc.
Qed.

(** Where every reference succeeds, the turns add up to the join followed by
    one more separator. *)
Lemma appended_join refs :
  refs <> [] ->
  Forall (fun r => is_Some (resolved_body env r)) refs ->
  SlugSpec.concat (Legacy.appended env <$> refs)
  = join (nl +:+ nl) (resolved_text env <$> refs) +:+ nl +:+ nl.
Proof.
  intros Hne Hall. induction Hall as [|r refs [body Hr] Hall IH]; [done |].
  rewrite !fmap_cons. cbn [SlugSpec.concat]. unfold Legacy.appended at 1.
  rewrite Hr. destruct refs as [|r' refs].
  - simpl. by rewrite sapp_nil_r.
  - rewrite IH by done. rewrite !fmap_cons. cbn [join].
    by rewrite !sapp_assoc.
Qed.

End LegacyLoop.

(** X15.  The sequential loop of the earlier variant requests and reports
    one reference after the other, in the order of the list, and appends
    every fragment that succeeded followed by a blank line; a failed download
    adds nothing at all.  Where every reference succeeds, its result is the
    result of the concurrent resolution followed by one more blank line. *)
Theorem legacy_combine_sequential (env : Env) (refs : list Resource)
    (w : World) :
  Legacy.combine env (Some <$> refs) "" w
  = (Ok (SlugSpec.concat (Legacy.appended env <$> refs)),
     logged w (concat (Legacy.turn_events env <$> refs)))
  /\ (refs <> [] ->
      Forall (fun r => is_Some (resolved_body env r)) refs ->
      exists text,
        (downloadResources env (Some <$> refs) w).1 = Ok text
        /\ (Legacy.combine env (Some <$> refs) "" w).1
           = Ok (text +:+ nl +:+ nl)).
Proof.
  rewrite legacy_combine_run. split; [done |].
  intros Hne Hall. destruct (downloadResources_run env refs w) as (evs & -> & _).
  eexists. split; [done |]. simpl. by rewrite appended_join.
Qed.

Lemma legacy_combine_sequential_witness :
  exists text,
    (downloadResources Sample.env (Some <$> [Sample.a; Sample.b])
       Sample.world).1 = Ok text
    /\ (Legacy.combine Sample.env (Some <$> [Sample.a; Sample.b]) ""
          Sample.world).1
       = Ok (text +:+ nl +:+ nl).
Proof.
  apply (proj2 (legacy_combine_sequential Sample.env [Sample.a; Sample.b]
                  Sample.world)).
  - discriminate.
  - repeat constructor; by eexists.
Defined.

(** A failed download leaves no trace in the earlier merge, where the
    current one keeps the separators around its empty entry. *)
Example legacy_failed_entry :
  (Legacy.combine Sample.env (Some <$> [Sample.c; Sample.b]) ""
     Sample.world).1
  = Ok ("/* <style> inline #1 */" +:+ nl +:+ "body{color:red}" +:+ nl +:+ nl).
Proof. reflexivity. Qed.
